(** * The evaluator of the scripting language (language/interpreter.cc)

    A shallow embedding of [struct Eval] and of the run-time data it works
    on.  The syntax tree is peglib's [Ast]; values, environments and the
    accessors of [Value] come from [interpreter.hpp]. *)

From stdpp Require Import base gmap strings list pretty.
From Stdlib Require Import ZArith Lia Ascii.

Local Open Scope Z_scope.

(** ** Syntax trees *)

(** The rule names the evaluator dispatches on.  peglib stores the hash of
    the rule name; a rule the evaluator does not know is [OTHER]. *)
Inductive Tag :=
| STATEMENTS | WHILE | IF | FUNCTION | CALL | ASSIGNMENT
| LOGICAL_OR | LOGICAL_AND | CONDITION
| UNARY_PLUS | UNARY_MINUS | UNARY_NOT | ADDITIVE | MULTIPLICATIVE
| IDENTIFIER | OBJECT | ARRAY | NUMBER | BOOLEAN | INTERPOLATED_STRING
| ARGUMENTS | INDEX | DOT
| OTHER (rule : string).

#[local] Unset Elimination Schemes.
Inductive Ast := mkAst {
  tag : Tag;
  original_tag : Tag;
  is_token : bool;
  token : string;
  nodes : list Ast;
  line : Z;
  column : Z
}.
#[local] Set Elimination Schemes.

(** ** Values *)

Definition EnvId := nat.
Definition ObjId := nat.
Definition ArrId := nat.

(** [FunctionValue::Parameter]. *)
Record FnParameter := { name : string; mut : bool }.

(** [FunctionValue] pairs a parameter list with a [std::function].  The
    closures are kept as data: [Closure] is the lambda of [eval_function]
    (it captures the body and the defining environment), [Method] the
    lambda of the DOT branch of [eval_call] (it captures the receiver and
    the property), [Native] a function installed by the host program.
    Objects, arrays and environments are shared pointers: a value holds
    the address and the contents live in the [Store]. *)
Inductive FunctionValue :=
| Closure (params : list FnParameter) (body : Ast) (env : EnvId)
| Method (params : list FnParameter) (val : Value) (pf : FunctionValue)
| Native (params : list FnParameter) (code : nat)
with Value :=
| VUnit
| VBool (b : bool)
| VLong (n : Z)
| VString (s : string)
| VObject (o : ObjId)
| VArray (a : ArrId)
| VFunction (f : FunctionValue).
Arguments VObject o%_nat.
Arguments VArray a%_nat.
Arguments Closure params body env%_nat.
Arguments Native params code%_nat.

Definition fn_params (f : FunctionValue) : list FnParameter :=
  match f with
  | Closure ps _ _ => ps
  | Method ps _ _ => ps
  | Native ps _ => ps
  end.

(** Modelled from the spec: the [Environment] class of interpreter.hpp is
    not part of the sources.  Section 3 of the specification describes it
    as a mapping from names to (value, mutable) bindings, an ordered list
    of outer environments and an optional link to an enclosing object. *)
Record Symbol := { sym_val : Value; sym_mut : bool }.

Record Environment := {
  dic : gmap string Symbol;
  outers : list EnvId;
  object : option ObjId
}.

Record Store := {
  envs : gmap EnvId Environment;
  objects : gmap ObjId (gmap string Value);
  arrays : gmap ArrId (list Value)
}.

(** ** Failures and the evaluation monad *)

(** The failure kinds of section 7 of the specification, followed by the
    failures of the host language: the two [logic_error]s of the
    evaluator, the exceptions of [stol], and [Undefined] for what C++
    leaves undefined (a vector read past its end, a zero divisor). *)
Inductive Error :=
| TypeMismatch | UnboundName | ImmutableBinding | ArgumentError
| DivisionByZero | StackOverflow | ParseError
| InvalidAst | InvalidCondition | InvalidNumber
| Undefined.

Inductive Result (A : Type) :=
| Done (a : A) (s : Store)
| Fail (e : Error)
| OutOfFuel.
Arguments Done {A} a s.
Arguments Fail {A} e.
Arguments OutOfFuel {A}.

Definition M (A : Type) : Type := Store -> Result A.

Definition ret {A} (a : A) : M A := fun s => Done a s.
Definition fail {A} (e : Error) : M A := fun _ => Fail e.
Definition bind {A B} (m : M A) (k : A -> M B) : M B :=
  fun s => match m s with
           | Done a s' => k a s'
           | Fail e => Fail e
           | OutOfFuel => OutOfFuel
           end.

Notation "x <- m ;; k" := (bind m (fun x => k))
  (at level 100, m at next level, right associativity).
Notation "m ;; k" := (bind m (fun _ => k))
  (at level 100, right associativity).

(** ** Numbers *)

(** [long] is 64 bits wide; additions, subtractions and products wrap
    around as two's-complement hardware does. *)
Definition LONG_MIN : Z := - 2 ^ 63.
Definition LONG_MAX : Z := 2 ^ 63 - 1.
Definition wrap (z : Z) : Z := (z + 2 ^ 63) mod 2 ^ 64 - 2 ^ 63.
Definition in_long (z : Z) : bool := (LONG_MIN <=? z) && (z <=? LONG_MAX).

(** [std::stol]: leading white space, an optional sign, decimal digits;
    what follows the digits is ignored. *)
Definition is_space (c : ascii) : bool :=
  let n := nat_of_ascii c in
  (Nat.eqb n 32 || (Nat.leb 9 n && Nat.leb n 13))%bool.

Fixpoint skip_spaces (s : string) : string :=
  match s with
  | String c s' => if is_space c then skip_spaces s' else s
  | EmptyString => s
  end.

Definition digit_of (c : ascii) : option Z :=
  let n := nat_of_ascii c in
  if (Nat.leb 48 n && Nat.leb n 57)%bool then Some (Z.of_nat (n - 48)) else None.

Fixpoint digits (s : string) (acc : option Z) : option Z :=
  match s with
  | String c s' =>
      match digit_of c with
      | Some d => digits s' (Some (10 * default 0 acc + d))
      | None => acc
      end
  | EmptyString => acc
  end.

Definition stol (s : string) : M Z :=
  let s := skip_spaces s in
  let '(neg, s) :=
    match s with
    | String "-" s' => (true, s')
    | String "+" s' => (false, s')
    | _ => (false, s)
    end in
  match digits s None with
  | None => fail InvalidNumber
  | Some n =>
      let z := if (neg : bool) then - n else n in
      if in_long z then ret z else fail InvalidNumber
  end.

(** ** The accessors of [Value] *)

(** Modelled from the spec: the tag-checked accessors of [Value]
    (interpreter.hpp) are not part of the sources; section 4.1 makes each
    fail with [TypeMismatch] when the stored tag does not match. *)
Definition to_bool (v : Value) : M bool :=
  match v with VBool b => ret b | _ => fail TypeMismatch end.
Definition to_long (v : Value) : M Z :=
  match v with VLong n => ret n | _ => fail TypeMismatch end.
Definition to_string (v : Value) : M string :=
  match v with VString s => ret s | _ => fail TypeMismatch end.
Definition to_array (v : Value) : M ArrId :=
  match v with VArray a => ret a | _ => fail TypeMismatch end.
Definition to_object (v : Value) : M ObjId :=
  match v with VObject o => ret o | _ => fail TypeMismatch end.
Definition to_function (v : Value) : M FunctionValue :=
  match v with VFunction f => ret f | _ => fail TypeMismatch end.

(** What the specification leaves to the host program: the functions it
    installs, the properties of values that are not stored in an object,
    the text of a value that is not a number, a boolean or a string, and
    the comparisons section 4.1 does not define. *)
Record Host := {
  native_eval : nat -> EnvId -> M Value;
  builtin_property : Value -> string -> M Value;
  str_other : Value -> M string;
  compare_other : string -> Value -> Value -> M bool
}.

(** ** The store *)

Definition set_envs (f : gmap EnvId Environment -> gmap EnvId Environment)
    (st : Store) : Store :=
  {| envs := f (envs st); objects := objects st; arrays := arrays st |}.

Definition set_objects
    (f : gmap ObjId (gmap string Value) -> gmap ObjId (gmap string Value))
    (st : Store) : Store :=
  {| envs := envs st; objects := f (objects st); arrays := arrays st |}.

Definition set_arrays (f : gmap ArrId (list Value) -> gmap ArrId (list Value))
    (st : Store) : Store :=
  {| envs := envs st; objects := objects st; arrays := f (arrays st) |}.

(** [make_shared<Environment>()], and the moment a local [ObjectValue] or
    [ArrayValue] is moved into a [Value]: the contents get an address no
    live value has. *)
Definition new_env (E : Environment) : M EnvId :=
  fun st => let e := fresh (dom (envs st)) in
            Done e (set_envs (insert e E) st).

Definition new_object (m : gmap string Value) : M ObjId :=
  fun st => let o := fresh (dom (objects st)) in
            Done o (set_objects (insert o m) st).

Definition new_array (vs : list Value) : M ArrId :=
  fun st => let a := fresh (dom (arrays st)) in
            Done a (set_arrays (insert a vs) st).

Definition object_properties (o : ObjId) : M (gmap string Value) :=
  fun st => match objects st !! o with
            | Some m => Done m st
            | None => Fail Undefined
            end.

Definition array_values (a : ArrId) : M (list Value) :=
  fun st => match arrays st !! a with
            | Some vs => Done vs st
            | None => Fail Undefined
            end.

(** ** Environments *)

Definition empty_env : Environment :=
  {| dic := ∅; outers := []; object := None |}.

(** Modelled from the spec: [Environment::initialize] is not part of the
    sources; by section 4.2 it creates the binding in this scope only, and
    the last write wins. *)
Definition env_initialize (s : string) (v : Value) (m : bool)
    (E : Environment) : Environment :=
  {| dic := <[s := {| sym_val := v; sym_mut := m |}]> (dic E);
     outers := outers E;
     object := object E |}.

(** Modelled from the spec: [Environment::append_outer] is not part of the
    sources; by section 4.2 the new outer scope is searched after the ones
    already installed. *)
Definition env_append_outer (outer : EnvId) (E : Environment) : Environment :=
  {| dic := dic E; outers := outers E ++ [outer]; object := object E |}.

(** Modelled from the spec: [Environment::set_object] is not part of the
    sources; by section 4.2 it attaches the receiver object. *)
Definition env_set_object (o : ObjId) (E : Environment) : Environment :=
  {| dic := dic E; outers := outers E; object := Some o |}.

Definition modify_env (e : EnvId) (f : Environment -> Environment) : M unit :=
  fun st => match envs st !! e with
            | Some E => Done tt (set_envs (insert e (f E)) st)
            | None => Fail Undefined
            end.

(** The three operations above, on the environment at the address [e];
    an environment is always reached through a shared pointer. *)
Definition initialize (e : EnvId) (s : string) (v : Value) (m : bool) : M unit :=
  modify_env e (env_initialize s v m).

Definition append_outer (e outer : EnvId) : M unit :=
  modify_env e (env_append_outer outer).

Definition set_object (e : EnvId) (o : ObjId) : M unit :=
  modify_env e (env_set_object o).

(** The search of a name along the lookup chain: this scope, then the
    outer scopes in order, each with its own outer scopes.  [Diverges]
    stands for a chain that runs into itself; a path longer than the
    number of environments is one. *)
Inductive Lookup :=
| Found (owner : EnvId) (s : Symbol)
| Missing
| Diverges.

(** The first outer scope that knows the name, in the order of the list. *)
Fixpoint first_found (find : EnvId -> Lookup) (os : list EnvId) : Lookup :=
  match os with
  | [] => Missing
  | o :: os' =>
      match find o with
      | Missing => first_found find os'
      | r => r
      end
  end.

Fixpoint find_owner (depth : nat) (st : Store) (e : EnvId) (s : string) : Lookup :=
  match depth with
  | O => Diverges
  | S d =>
      match envs st !! e with
      | None => Missing
      | Some E =>
          match dic E !! s with
          | Some b => Found e b
          | None => first_found (fun o => find_owner d st o s) (outers E)
          end
      end
  end.

Definition lookup_chain (st : Store) (e : EnvId) (s : string) : Lookup :=
  find_owner (S (size (envs st))) st e s.

(** Modelled from the spec: [Environment::has], [get] and [assign] are not
    part of the sources; section 4.2 gives their contracts. *)
Definition has (e : EnvId) (s : string) : M bool :=
  fun st => match lookup_chain st e s with
            | Found _ _ => Done true st
            | Missing => Done false st
            | Diverges => OutOfFuel
            end.

Definition get (e : EnvId) (s : string) : M Value :=
  fun st => match lookup_chain st e s with
            | Found _ b => Done (sym_val b) st
            | Missing => Fail UnboundName
            | Diverges => OutOfFuel
            end.

Definition assign (e : EnvId) (s : string) (v : Value) : M unit :=
  fun st => match lookup_chain st e s with
            | Found owner b =>
                if sym_mut b
                then initialize owner s v true st
                else Fail ImmutableBinding
            | Missing => Fail UnboundName
            | Diverges => OutOfFuel
            end.

(** ** Operations on values *)

(** Modelled from the spec: [Value::str] is not part of the sources; by
    section 4.1 a number is rendered in base 10, a boolean as true or
    false and a string as itself. *)
Definition str (host : Host) (v : Value) : M string :=
  match v with
  | VLong n => ret (pretty n)
  | VBool b => ret (if b then "true" else "false")%string
  | VString s => ret s
  | _ => str_other host v
  end.

(** Modelled from the spec: [Value::get_property] is not part of the
    sources; by section 4.4 an object answers from its property map and
    every other lookup goes to the built-in resolver. *)
Definition get_property (host : Host) (v : Value) (s : string) : M Value :=
  match v with
  | VObject o =>
      m <- object_properties o ;;
      match m !! s with
      | Some p => ret p
      | None => builtin_property host v s
      end
  | _ => builtin_property host v s
  end.

(** Modelled from the spec: the relational operators of [Value] are not
    part of the sources; by section 4.1 they need two values of the same
    tag, numbers and strings compare in their natural order, false is
    below true, and arrays and objects are equal when they are the same
    container. *)
Inductive Relation := REq | RNe | RLe | RLt | RGe | RGt.

Definition relation_name (r : Relation) : string :=
  match r with
  | REq => "==" | RNe => "!=" | RLe => "<=" | RLt => "<" | RGe => ">=" | RGt => ">"
  end.

Definition holds (r : Relation) (c : comparison) : bool :=
  match r, c with
  | REq, Eq | RLe, Eq | RGe, Eq => true
  | RNe, Lt | RLe, Lt | RLt, Lt => true
  | RNe, Gt | RGe, Gt | RGt, Gt => true
  | _, _ => false
  end.

Definition compare_bool (a b : bool) : comparison :=
  match a, b with
  | false, true => Lt
  | true, false => Gt
  | _, _ => Eq
  end.

Definition same_container (host : Host) (r : Relation) (l rv : Value)
    (a b : nat) : M bool :=
  match r with
  | REq => ret (Nat.eqb a b)
  | RNe => ret (negb (Nat.eqb a b))
  | _ => compare_other host (relation_name r) l rv
  end.

Definition compare_values (host : Host) (r : Relation) (l rv : Value) : M bool :=
  match l, rv with
  | VLong a, VLong b => ret (holds r (Z.compare a b))
  | VString a, VString b => ret (holds r (String.compare a b))
  | VBool a, VBool b => ret (holds r (compare_bool a b))
  | VArray a, VArray b => same_container host r l rv a b
  | VObject a, VObject b => same_container host r l rv a b
  | VUnit, VUnit => compare_other host (relation_name r) l rv
  | VFunction _, VFunction _ => compare_other host (relation_name r) l rv
  | _, _ => fail TypeMismatch
  end.

(** [std::map::emplace]: a key that is already present keeps its value. *)
Definition emplace (s : string) (v : Value) (m : gmap string Value)
    : gmap string Value :=
  match m !! s with
  | Some _ => m
  | None => <[s := v]> m
  end.

(** ** The evaluator *)

(** [*ast.nodes[i]]: reading a vector past its end is undefined. *)
Definition node_at (ast : Ast) (i : nat) : M Ast :=
  match nodes ast !! i with
  | Some n => ret n
  | None => fail Undefined
  end.

(** One step of the loop of [eval_bin_expression].  The division
    instruction has no result for a zero divisor, nor for [LONG_MIN / -1]. *)
Definition bin_op (ope : ascii) (acc val : Z) : M Z :=
  if Ascii.eqb ope "+" then ret (wrap (acc + val))
  else if Ascii.eqb ope "-" then ret (wrap (acc - val))
  else if Ascii.eqb ope "*" then ret (wrap (acc * val))
  else if Ascii.eqb ope "/" then
    if (val =? 0) || ((acc =? LONG_MIN) && (val =? -1)) then fail Undefined
    else ret (Z.quot acc val)
  else if Ascii.eqb ope "%" then
    if (val =? 0) || ((acc =? LONG_MIN) && (val =? -1)) then fail Undefined
    else ret (Z.rem acc val)
  else ret acc.

(** [s[0]]: the first character, the terminating zero of an empty string. *)
Definition first_char (s : string) : ascii :=
  match s with
  | String c _ => c
  | EmptyString => Ascii.zero
  end.

Definition relation_of (ope : string) : M Relation :=
  if String.eqb ope "==" then ret REq
  else if String.eqb ope "!=" then ret RNe
  else if String.eqb ope "<=" then ret RLe
  else if String.eqb ope "<" then ret RLt
  else if String.eqb ope ">=" then ret RGe
  else if String.eqb ope ">" then ret RGt
  else fail InvalidCondition.

Section Evaluator.
Context (host : Host).

Section Node.
(** [ev] is [Eval::eval] on the nodes below the one at hand. *)
Variable ev : Ast -> EnvId -> M Value.

Fixpoint statements_loop (n : Ast) (ns : list Ast) (env : EnvId) : M Value :=
  match ns with
  | [] => ev n env
  | n' :: ns' => ev n env ;; statements_loop n' ns' env
  end.

Definition eval_statements (ast : Ast) (env : EnvId) : M Value :=
  if is_token ast then ev ast env
  else match nodes ast with
       | [] => ret VUnit
       | n :: ns => statements_loop n ns env
       end.

(** The loop goes round by evaluating the WHILE node once more. *)
Definition eval_while (ast : Ast) (env : EnvId) : M Value :=
  c <- node_at ast 0 ;;
  cond <- ev c env ;;
  b <- to_bool cond ;;
  if (b : bool) then
    body <- node_at ast 1 ;;
    ev body env ;;
    ev ast env
  else ret VUnit.

Fixpoint if_loop (ns : list Ast) (env : EnvId) : M Value :=
  match ns with
  | [] => ret VUnit
  | [n] => ev n env
  | c :: t :: rest =>
      cond <- ev c env ;;
      b <- to_bool cond ;;
      if (b : bool) then ev t env else if_loop rest env
  end.

Definition eval_if (ast : Ast) (env : EnvId) : M Value :=
  if_loop (nodes ast) env.

Fixpoint parameters (ns : list Ast) : M (list FnParameter) :=
  match ns with
  | [] => ret []
  | node :: ns' =>
      m <- node_at node 0 ;;
      nm <- node_at node 1 ;;
      ps <- parameters ns' ;;
      ret ({| name := token nm; mut := String.eqb (token m) "mut" |} :: ps)
  end.

Definition eval_function (ast : Ast) (env : EnvId) : M Value :=
  plist <- node_at ast 0 ;;
  params <- parameters (nodes plist) ;;
  body <- node_at ast 1 ;;
  ret (VFunction (Closure params body env)).

(** [f.data->eval(callEnv)], for each of the closures. *)
Fixpoint invoke (f : FunctionValue) (callEnv : EnvId) : M Value :=
  match f with
  | Closure _ body env =>
      append_outer callEnv env ;;
      ev body callEnv
  | Method _ val pf =>
      initialize callEnv "this" val false ;;
      match val with
      | VObject o => set_object callEnv o
      | _ => ret tt
      end ;;
      invoke pf callEnv
  | Native _ code => native_eval host code callEnv
  end.

(** The loop over [params] in the ARGUMENTS branch.  The call
    environment is local to [eval_call] until the callee receives it,
    so it is a local record here and enters the store at the call. *)
Fixpoint bind_params (params : list FnParameter) (args : list Ast)
    (env : EnvId) (callEnv : Environment) : M Environment :=
  match params with
  | [] => ret callEnv
  | param :: params' =>
      match args with
      | [] => fail Undefined
      | arg :: args' =>
          val <- ev arg env ;;
          bind_params params' args' env
            (env_initialize (name param) val (mut param) callEnv)
      end
  end.

Definition call_environment (ast : Ast) (env : EnvId) (val : Value)
    (params : list FnParameter) (args : list Ast) : M Environment :=
  callEnv <- bind_params params args env
               (env_initialize "self" val false empty_env) ;;
  ret (env_initialize "__COLUMN__" (VLong (wrap (column ast))) false
         (env_initialize "__LINE__" (VLong (wrap (line ast))) false callEnv)).

Definition call_arguments (ast : Ast) (env : EnvId) (val : Value) (n : Ast)
    : M Value :=
  f <- to_function val ;;
  let params := fn_params f in
  let args := nodes n in
  if Nat.leb (length params) (length args) then
    E <- call_environment ast env val params args ;;
    callEnv <- new_env E ;;
    invoke f callEnv
  else fail ArgumentError.

Definition call_index (env : EnvId) (val : Value) (n : Ast) : M Value :=
  arr <- to_array val ;;
  i <- ev n env ;;
  idx <- to_long i ;;
  values <- array_values arr ;;
  if (0 <=? idx) && (idx <? Z.of_nat (length values)) then
    match values !! Z.to_nat idx with
    | Some v => ret v
    | None => fail Undefined
    end
  else ret val.

Definition call_dot (val : Value) (n : Ast) : M Value :=
  prop <- get_property host val (token n) ;;
  match prop with
  | VFunction pf => ret (VFunction (Method (fn_params pf) val pf))
  | _ => ret prop
  end.

(** The body of the loop of [eval_call]. *)
Definition call_step (ast : Ast) (env : EnvId) (val : Value) (n : Ast)
    : M Value :=
  match original_tag n with
  | ARGUMENTS => call_arguments ast env val n
  | INDEX => call_index env val n
  | DOT => call_dot val n
  | _ => fail InvalidCondition
  end.

Fixpoint call_loop (ast : Ast) (env : EnvId) (val : Value) (ns : list Ast)
    : M Value :=
  match ns with
  | [] => ret val
  | n :: ns' =>
      val' <- call_step ast env val n ;;
      call_loop ast env val' ns'
  end.

Definition eval_call (ast : Ast) (env : EnvId) : M Value :=
  match nodes ast with
  | [] => fail Undefined
  | n :: ns =>
      val <- ev n env ;;
      call_loop ast env val ns
  end.

Fixpoint or_loop (ns : list Ast) (env : EnvId) (r : Value) : M Value :=
  match ns with
  | [] => ret r
  | node :: ns' =>
      r' <- ev node env ;;
      b <- to_bool r' ;;
      if (b : bool) then ret r' else or_loop ns' env r'
  end.

Definition eval_logical_or (ast : Ast) (env : EnvId) : M Value :=
  match nodes ast with
  | [n] => ev n env
  | ns => or_loop ns env VUnit
  end.

Fixpoint and_loop (ns : list Ast) (env : EnvId) (r : Value) : M Value :=
  match ns with
  | [] => ret r
  | node :: ns' =>
      r' <- ev node env ;;
      b <- to_bool r' ;;
      if negb b then ret r' else and_loop ns' env r'
  end.

Definition eval_logical_and (ast : Ast) (env : EnvId) : M Value :=
  and_loop (nodes ast) env VUnit.

Definition eval_condition (ast : Ast) (env : EnvId) : M Value :=
  match nodes ast with
  | [n] => ev n env
  | _ =>
      l <- node_at ast 0 ;;
      lhs <- ev l env ;;
      o <- node_at ast 1 ;;
      opv <- ev o env ;;
      ope <- to_string opv ;;
      r <- node_at ast 2 ;;
      rhs <- ev r env ;;
      rel <- relation_of ope ;;
      b <- compare_values host rel lhs rhs ;;
      ret (VBool b)
  end.

Definition eval_unary_plus (ast : Ast) (env : EnvId) : M Value :=
  match nodes ast with
  | [n] => ev n env
  | _ => n <- node_at ast 1 ;; ev n env
  end.

Definition eval_unary_minus (ast : Ast) (env : EnvId) : M Value :=
  match nodes ast with
  | [n] => ev n env
  | _ =>
      n <- node_at ast 1 ;;
      v <- ev n env ;;
      x <- to_long v ;;
      ret (VLong (wrap (x * -1)))
  end.

Definition eval_unary_not (ast : Ast) (env : EnvId) : M Value :=
  match nodes ast with
  | [n] => ev n env
  | _ =>
      n <- node_at ast 1 ;;
      v <- ev n env ;;
      b <- to_bool v ;;
      ret (VBool (negb b))
  end.

(** The loop of [eval_bin_expression] over the (operator, operand)
    pairs that follow the first operand; the operand is evaluated
    before the operator. *)
Fixpoint bin_loop (ns : list Ast) (env : EnvId) (acc : Z) : M Z :=
  match ns with
  | [] => ret acc
  | [_] => fail Undefined
  | o :: r :: rest =>
      v <- ev r env ;;
      val <- to_long v ;;
      opv <- ev o env ;;
      ope <- to_string opv ;;
      acc' <- bin_op (first_char ope) acc val ;;
      bin_loop rest env acc'
  end.

Definition eval_bin_expression (ast : Ast) (env : EnvId) : M Value :=
  match nodes ast with
  | [] => fail Undefined
  | n :: ns =>
      v <- ev n env ;;
      acc <- to_long v ;;
      r <- bin_loop ns env acc ;;
      ret (VLong r)
  end.

Definition eval_assignment (ast : Ast) (env : EnvId) : M Value :=
  m <- node_at ast 0 ;;
  var <- node_at ast 1 ;;
  rhs <- node_at ast 2 ;;
  val <- ev rhs env ;;
  bound <- has env (token var) ;;
  (if (bound : bool) then assign env (token var) val
   else initialize env (token var) val (String.eqb (token m) "mut")) ;;
  ret val.

Definition eval_identifier (ast : Ast) (env : EnvId) : M Value :=
  get env (token ast).

(** The property map is local to [eval_object] until it is moved into
    the result. *)
Fixpoint object_loop (props : list Ast) (env : EnvId)
    (obj : gmap string Value) : M (gmap string Value) :=
  match props with
  | [] => ret obj
  | prop :: props' =>
      nm <- node_at prop 0 ;;
      e <- node_at prop 1 ;;
      val <- ev e env ;;
      object_loop props' env (emplace (token nm) val obj)
  end.

Definition eval_object (ast : Ast) (env : EnvId) : M Value :=
  obj <- object_loop (nodes ast) env ∅ ;;
  o <- new_object obj ;;
  ret (VObject o).

Fixpoint array_loop (ns : list Ast) (env : EnvId) (arr : list Value)
    : M (list Value) :=
  match ns with
  | [] => ret arr
  | expr :: ns' =>
      val <- ev expr env ;;
      array_loop ns' env (arr ++ [val])
  end.

Definition eval_array (ast : Ast) (env : EnvId) : M Value :=
  arr <- array_loop (nodes ast) env [] ;;
  a <- new_array arr ;;
  ret (VArray a).

Definition eval_number (ast : Ast) (env : EnvId) : M Value :=
  n <- stol (token ast) ;;
  ret (VLong n).

Definition eval_bool (ast : Ast) (env : EnvId) : M Value :=
  ret (VBool (String.eqb (token ast) "true")).

Fixpoint interpolation_loop (ns : list Ast) (env : EnvId) (s : string)
    : M string :=
  match ns with
  | [] => ret s
  | node :: ns' =>
      val <- ev node env ;;
      t <- str host val ;;
      interpolation_loop ns' env (s +:+ t)
  end.

Definition eval_interpolated_string (ast : Ast) (env : EnvId) : M Value :=
  s <- interpolation_loop (nodes ast) env "" ;;
  ret (VString s).

(** The body of [Eval::eval]. *)
Definition eval_node (ast : Ast) (env : EnvId) : M Value :=
  match tag ast with
  | STATEMENTS => eval_statements ast env
  | WHILE => eval_while ast env
  | IF => eval_if ast env
  | FUNCTION => eval_function ast env
  | CALL => eval_call ast env
  | ASSIGNMENT => eval_assignment ast env
  | LOGICAL_OR => eval_logical_or ast env
  | LOGICAL_AND => eval_logical_and ast env
  | CONDITION => eval_condition ast env
  | UNARY_PLUS => eval_unary_plus ast env
  | UNARY_MINUS => eval_unary_minus ast env
  | UNARY_NOT => eval_unary_not ast env
  | ADDITIVE | MULTIPLICATIVE => eval_bin_expression ast env
  | IDENTIFIER => eval_identifier ast env
  | OBJECT => eval_object ast env
  | ARRAY => eval_array ast env
  | NUMBER => eval_number ast env
  | BOOLEAN => eval_bool ast env
  | INTERPOLATED_STRING => eval_interpolated_string ast env
  | _ => if is_token ast then ret (VString (token ast))
         else fail InvalidAst
  end.
End Node.

(** [Eval::eval], with the depth of the recursion bounded by [fuel]. *)
Fixpoint eval (fuel : nat) (ast : Ast) (env : EnvId) : M Value :=
  match fuel with
  | O => fun _ => OutOfFuel
  | S fuel' => eval_node (eval fuel') ast env
  end.
End Evaluator.

(** ** Notions used to state the properties *)

(** The expressions [es], evaluated one after the other in [env], give the
    values [vs]; the store is threaded from left to right. *)
Inductive evals (ev : Ast -> EnvId -> M Value) (env : EnvId)
    : list Ast -> Store -> list Value -> Store -> Prop :=
| evals_nil st : evals ev env [] st [] st
| evals_cons e es st v st1 vs st2 :
    ev e env st = Done v st1 ->
    evals ev env es st1 vs st2 ->
    evals ev env (e :: es) st (v :: vs) st2.

(** Every expression of [es], evaluated in turn, gives the boolean [b]. *)
Inductive yields_all (ev : Ast -> EnvId -> M Value) (env : EnvId) (b : bool)
    : list Ast -> Store -> Store -> Prop :=
| yields_nil st : yields_all ev env b [] st st
| yields_cons e es st st1 st2 :
    ev e env st = Done (VBool b) st1 ->
    yields_all ev env b es st1 st2 ->
    yields_all ev env b (e :: es) st st2.

(** The name and the expression of a property node of an object literal. *)
Definition pair_of (prop : Ast) : option (string * Ast) :=
  match nodes prop with
  | nm :: e :: _ => Some (token nm, e)
  | _ => None
  end.

(** The property map after the pairs have been emplaced, in order. *)
Definition emplace_all (kvs : list (string * Value)) (m : gmap string Value)
    : gmap string Value :=
  foldl (fun m kv => emplace kv.1 kv.2 m) m kvs.

Definition binding (st : Store) (e : EnvId) (s : string) : option Symbol :=
  E ← envs st !! e; dic E !! s.

(** What the search along the lookup chain gives after the binding in
    [owner] of the name searched for has been replaced by [b']. *)
Definition replaced (owner : EnvId) (b' : Symbol) (r : Lookup) : Lookup :=
  match r with
  | Found o b => Found o (if decide (o = owner) then b' else b)
  | _ => r
  end.

Definition symbol (v : Value) (m : bool) : Symbol :=
  {| sym_val := v; sym_mut := m |}.

(** The environment [E] after the parameters have been initialized, in
    order, with the values [vs]. *)
Definition with_parameters (params : list FnParameter) (vs : list Value)
    (E : Environment) : Environment :=
  foldl (fun E pv => env_initialize (name pv.1) pv.2 (mut pv.1) E) E
    (zip params vs).

(** The call environment handed to the callee: [self], the parameters,
    then the position of the call. *)
Definition call_frame (ast : Ast) (val : Value) (params : list FnParameter)
    (vs : list Value) : Environment :=
  env_initialize "__COLUMN__" (VLong (wrap (column ast))) false
    (env_initialize "__LINE__" (VLong (wrap (line ast))) false
       (with_parameters params vs (env_initialize "self" val false empty_env))).

(** The children of an IF node that come from (condition, consequence)
    pairs. *)
Definition branches (pairs : list (Ast * Ast)) : list Ast :=
  flat_map (fun p => [p.1; p.2]) pairs.

(** The parameter a node of the parameter list of a function literal
    stands for. *)
Definition parameter_of (node : Ast) : option FnParameter :=
  match nodes node with
  | m :: nm :: _ => Some {| name := token nm; mut := String.eqb (token m) "mut" |}
  | _ => None
  end.

(** The (operator, operand) nodes that follow the first operand of a binary
    expression give the operator characters and the numbers [ops]; each
    operand is evaluated before its operator. *)
Inductive operations (ev : Ast -> EnvId -> M Value) (env : EnvId)
    : list Ast -> Store -> list (ascii * Z) -> Store -> Prop :=
| operations_nil st : operations ev env [] st [] st
| operations_cons o r rest st v st1 ope st2 ops st3 :
    ev r env st = Done (VLong v) st1 ->
    ev o env st1 = Done (VString ope) st2 ->
    operations ev env rest st2 ops st3 ->
    operations ev env (o :: r :: rest) st ((first_char ope, v) :: ops) st3.

(** The operators applied one after the other, from the left. *)
Fixpoint apply_all (ops : list (ascii * Z)) (acc : Z) : M Z :=
  match ops with
  | [] => ret acc
  | (c, v) :: ops' => acc' <- bin_op c acc v ;; apply_all ops' acc'
  end.

(** The text of a number, a boolean or a string. *)
Definition text (v : Value) : option string :=
  match v with
  | VLong n => Some (pretty n)
  | VBool b => Some (if b then "true" else "false")%string
  | VString s => Some s
  | _ => None
  end.

(** Every outer scope of every environment of the store is in the store. *)
Definition closed_outers (st : Store) : Prop :=
  map_Forall (fun _ E => Forall (fun o => is_Some (envs st !! o)) (outers E))
    (envs st).

(** Whether the function was made by a DOT step. *)
Definition is_method (f : FunctionValue) : bool :=
  match f with
  | Method _ _ _ => true
  | _ => false
  end.

(** The call environment [E] as the callee has made it when the body
    starts: the closure of a DOT step has initialized [this] and attached
    an object receiver, the closure of a function literal has added the
    defining environment as outer scope. *)
Fixpoint at_body (f : FunctionValue) (E : Environment) : Environment :=
  match f with
  | Closure _ _ env => env_append_outer env E
  | Method _ val pf =>
      at_body pf
        match val with
        | VObject o => env_set_object o (env_initialize "this" val false E)
        | _ => env_initialize "this" val false E
        end
  | Native _ _ => E
  end.

(** The evaluation of the body itself: the body node of the function
    literal, or the function of the host. *)
Fixpoint run_body (host : Host) (ev : Ast -> EnvId -> M Value)
    (f : FunctionValue) (callEnv : EnvId) : M Value :=
  match f with
  | Closure _ body _ => ev body callEnv
  | Method _ _ pf => run_body host ev pf callEnv
  | Native _ code => native_eval host code callEnv
  end.

(** The body node and the defining environment of the function literal a
    function value comes from. *)
Fixpoint closure_of (f : FunctionValue) : option (Ast * EnvId) :=
  match f with
  | Closure _ body env => Some (body, env)
  | Method _ _ pf => closure_of pf
  | Native _ _ => None
  end.

(** ** Sample programs *)

Module Sample.
Definition node (t : Tag) (ns : list Ast) : Ast :=
  {| tag := t; original_tag := t; is_token := false; token := "";
     nodes := ns; line := 3; column := 7 |}.
Definition leaf (t : Tag) (s : string) : Ast :=
  {| tag := t; original_tag := t; is_token := true; token := s;
     nodes := []; line := 3; column := 7 |}.
Definition tok : string -> Ast := leaf (OTHER "TOKEN").
Definition num : string -> Ast := leaf NUMBER.
Definition boolean : string -> Ast := leaf BOOLEAN.
Definition ident : string -> Ast := leaf IDENTIFIER.
Definition assignment (m x : string) (e : Ast) : Ast :=
  node ASSIGNMENT [tok m; tok x; e].
Definition binary (t : Tag) (a : Ast) (o : string) (b : Ast) : Ast :=
  node t [a; tok o; b].
Definition property (k : string) (e : Ast) : Ast :=
  node (OTHER "OBJECT_PROPERTY") [tok k; e].
Definition parameter (m x : string) : Ast :=
  node (OTHER "PARAMETER") [tok m; tok x].
Definition function (ps : list Ast) (body : Ast) : Ast :=
  node FUNCTION [node (OTHER "PARAMETERS") ps; body].
Definition arguments (es : list Ast) : Ast := node ARGUMENTS es.
Definition dot (s : string) : Ast :=
  {| tag := IDENTIFIER; original_tag := DOT; is_token := true; token := s;
     nodes := []; line := 3; column := 7 |}.
(** An INDEX node with one child takes the place of that child and
    keeps INDEX as its original tag. *)
Definition index (e : Ast) : Ast :=
  {| tag := tag e; original_tag := INDEX; is_token := is_token e;
     token := token e; nodes := nodes e; line := line e;
     column := column e |}.
Definition call (p : Ast) (steps : list Ast) : Ast := node CALL (p :: steps).

(** A host program that installs nothing. *)
Definition bare : Host :=
  {| native_eval := fun _ _ => fail TypeMismatch;
     builtin_property := fun _ _ => fail TypeMismatch;
     str_other := fun _ => fail TypeMismatch;
     compare_other := fun _ _ _ => fail TypeMismatch |}.

(** The store at program start: the root environment, at address 0. *)
Definition root : EnvId := 0%nat.
Definition start : Store :=
  {| envs := {[ root := empty_env ]}; objects := ∅; arrays := ∅ |}.


(** The store after [x] has been given the value 1 in the root
    environment, mutable or not. *)
Definition with_x (m : bool) : Store :=
  {| envs := {[ root := env_initialize "x" (VLong 1) m empty_env ]};
     objects := ∅; arrays := ∅ |}.

Definition identity : FunctionValue :=
  Closure [{| name := "x"; mut := false |}] (ident "x") root.

Definition statements (ns : list Ast) : Ast := node STATEMENTS ns.
Definition less (a b : Ast) : Ast := node CONDITION [a; tok "<"; b].

(** [x = 1; f = fn() { x }; g = fn(x) { f() }; g(2)] *)
Definition capture : Ast :=
  statements
    [assignment "" "x" (num "1");
     assignment "" "f" (function [] (ident "x"));
     assignment "" "g"
       (function [parameter "" "x"] (call (ident "f") [arguments []]));
     call (ident "g") [arguments [num "2"]]].

(** [o = { n: 5, m: fn() { this.n } }; o.m()] *)
Definition method_call : Ast :=
  statements
    [assignment "" "o"
       (node OBJECT
          [property "n" (num "5");
           property "m" (function [] (call (ident "this") [dot "n"]))]);
     call (ident "o") [dot "m"; arguments []]].

(** [mut i = 0; while (i < 3) { i = i + 1 }; i] *)
Definition count_to_three : Ast :=
  statements
    [assignment "mut" "i" (num "0");
     node WHILE
       [less (ident "i") (num "3");
        assignment "" "i" (binary ADDITIVE (ident "i") "+" (num "1"))];
     ident "i"].

(** [if (false) { 1 } else if (true) { 2 } else { 3 }] *)
Definition if_chain : Ast :=
  node IF [boolean "false"; num "1"; boolean "true"; num "2"; num "3"].

(** The string that reads x= followed by the sum 1 + 2. *)
Definition interpolated : Ast :=
  node INTERPOLATED_STRING
    [tok "x="; binary ADDITIVE (num "1") "+" (num "2")].

(** [mut c = 0; x = (c = c + 1); c] *)
Definition counted : Ast :=
  statements
    [assignment "mut" "c" (num "0");
     assignment "" "x"
       (assignment "" "c" (binary ADDITIVE (ident "c") "+" (num "1")));
     ident "c"].

Definition value_of {A} (r : Result A) : option A :=
  match r with
  | Done a _ => Some a
  | _ => None
  end.

(** The store with the array [5, 6] at address 0. *)
Definition with_array : Store :=
  {| envs := envs start; objects := ∅;
     arrays := {[ 0%nat := [VLong 5; VLong 6] ]} |}.

(** The store with, at address 0, the object whose property [n] is 5
    and whose property [m] is the identity function. *)
Definition with_object : Store :=
  {| envs := envs start;
     objects :=
       {[ 0%nat := <["m"%string := VFunction identity]>
                     {[ "n"%string := VLong 5 ]} ]};
     arrays := ∅ |}.

(** The literal with the property [a] given twice, as 1 and then 2. *)
Definition twice_a : Ast :=
  node OBJECT [property "a" (num "1"); property "a" (num "2")].

(** A function whose parameter is called self. *)
Definition shadowing : FunctionValue :=
  Closure [{| name := "self"; mut := false |}] (ident "self") root.
End Sample.

(** ** Basic facts about the monad *)

Lemma bind_done {A B} (m : M A) (k : A -> M B) st a st1 :
  m st = Done a st1 -> bind m k st = k a st1.
Proof. intros H. unfold bind. by rewrite H. Qed.

Lemma bind_fail {A B} (m : M A) (k : A -> M B) st e :
  m st = Fail e -> bind m k st = Fail e.
Proof. intros H. unfold bind. by rewrite H. Qed.

Lemma bind_ret {A B} (a : A) (k : A -> M B) st :
  bind (ret a) k st = k a st.
Proof. reflexivity. Qed.

Lemma bind_assoc {A B C} (m : M A) (f : A -> M B) (g : B -> M C) st :
  bind (bind m f) g st = bind m (fun a => bind (f a) g) st.
Proof. unfold bind. by destruct (m st). Qed.

Lemma bind_ret_r {A} (m : M A) st : bind m ret st = m st.
Proof. unfold bind. by destruct (m st). Qed.

Lemma bind_inv {A B} (m : M A) (k : A -> M B) st b st2 :
  bind m k st = Done b st2 ->
  exists a st1, m st = Done a st1 /\ k a st1 = Done b st2.
Proof.
  unfold bind. destruct (m st) as [a st1| |] eqn:E; [|done..].
  intros H. by exists a, st1.
Qed.

Lemma eval_unfold host fuel ast env :
  eval host (S fuel) ast env = eval_node host (eval host fuel) ast env.
Proof. reflexivity. Qed.

(** ** Sample runs *)

Example run_capture :
  Sample.value_of (eval Sample.bare 8 Sample.capture Sample.root Sample.start)
  = Some (VLong 1).
Proof. vm_compute. reflexivity. Qed.

Example run_method_call :
  Sample.value_of (eval Sample.bare 8 Sample.method_call Sample.root Sample.start)
  = Some (VLong 5).
Proof. vm_compute. reflexivity. Qed.

Example run_count_to_three :
  Sample.value_of
    (eval Sample.bare 12 Sample.count_to_three Sample.root Sample.start)
  = Some (VLong 3).
Proof. vm_compute. reflexivity. Qed.

Example run_if_chain :
  Sample.value_of (eval Sample.bare 3 Sample.if_chain Sample.root Sample.start)
  = Some (VLong 2).
Proof. vm_compute. reflexivity. Qed.

Example run_if_without_else :
  Sample.value_of
    (eval Sample.bare 3 (Sample.node IF [Sample.boolean "false"; Sample.num "1"])
       Sample.root Sample.start)
  = Some VUnit.
Proof. vm_compute. reflexivity. Qed.

Example run_interpolated :
  Sample.value_of
    (eval Sample.bare 4 Sample.interpolated Sample.root Sample.start)
  = Some (VString "x=3").
Proof. vm_compute. reflexivity. Qed.

Example run_statements :
  Sample.value_of
    (eval Sample.bare 3 (Sample.statements []) Sample.root Sample.start)
  = Some VUnit /\
  Sample.value_of
    (eval Sample.bare 3
       (Sample.statements [Sample.num "1"; Sample.num "2"; Sample.num "3"])
       Sample.root Sample.start)
  = Some (VLong 3).
Proof. split; vm_compute; reflexivity. Qed.

(** The right-hand side of an assignment is evaluated once: the counter
    it increments ends at 1. *)
Example run_counted :
  Sample.value_of (eval Sample.bare 8 Sample.counted Sample.root Sample.start)
  = Some (VLong 1).
Proof. vm_compute. reflexivity. Qed.

(** The test whether the name is bound comes after the right-hand side:
    in [x = (x = 1)] the inner assignment binds [x], immutable, and the
    outer one then finds it bound. *)
Example run_nested_assignment :
  eval Sample.bare 3
    (Sample.assignment "" "x" (Sample.assignment "" "x" (Sample.num "1")))
    Sample.root Sample.start
  = Fail ImmutableBinding.
Proof. vm_compute. reflexivity. Qed.

Example run_logical :
  eval Sample.bare 2
    (Sample.node LOGICAL_OR [Sample.num "1"; Sample.boolean "true"])
    Sample.root Sample.start = Fail TypeMismatch /\
  eval Sample.bare 2 (Sample.node LOGICAL_OR [Sample.num "1"])
    Sample.root Sample.start = Done (VLong 1) Sample.start /\
  eval Sample.bare 2 (Sample.node LOGICAL_AND [Sample.num "1"])
    Sample.root Sample.start = Fail TypeMismatch /\
  eval Sample.bare 2
    (Sample.node LOGICAL_AND
       [Sample.boolean "true"; Sample.boolean "false"; Sample.ident "nowhere"])
    Sample.root Sample.start = Done (VBool false) Sample.start /\
  eval Sample.bare 2
    (Sample.node LOGICAL_OR [Sample.boolean "false"; Sample.boolean "false"])
    Sample.root Sample.start = Done (VBool false) Sample.start.
Proof. repeat split; vm_compute; reflexivity. Qed.

(** Calling [fn(self) { self }] with 7 gives 7. *)
Example run_shadowing :
  Sample.value_of
    (eval Sample.bare 4
       (Sample.call
          (Sample.function [Sample.parameter "" "self"] (Sample.ident "self"))
          [Sample.arguments [Sample.num "7"]])
       Sample.root Sample.start)
  = Some (VLong 7).
Proof. vm_compute. reflexivity. Qed.

(** A loop that does not end uses up any fuel. *)
Example run_forever fuel :
  eval Sample.bare fuel
    (Sample.node WHILE [Sample.boolean "true"; Sample.statements []])
    Sample.root Sample.start = OutOfFuel.
Proof.
  induction fuel as [|fuel IH]; [done|].
  destruct fuel as [|fuel]; [done|].
  rewrite eval_unfold. unfold eval_node, eval_while, node_at.
  cbn [Sample.node tag nodes lookup list_lookup].
  rewrite bind_ret.
  assert (eval Sample.bare (S fuel) (Sample.boolean "true") Sample.root
            Sample.start = Done (VBool true) Sample.start) as Hcond by done.
  rewrite (bind_done _ _ _ _ _ Hcond). cbn [to_bool]. rewrite !bind_ret.
  assert (eval Sample.bare (S fuel) (Sample.statements []) Sample.root
            Sample.start = Done VUnit Sample.start) as Hbody by done.
  by rewrite (bind_done _ _ _ _ _ Hbody).
Qed.

(** ** The postfix chain: indexing *)

(** C2.  An INDEX step on an array: when the index is outside
    [0, length) the running value of the chain stays the array (no
    failure, no unit value); inside, it becomes the element there. *)
Theorem index_step_bounds host ev ast env a n rest st idx st1 values :
  original_tag n = INDEX ->
  ev n env st = Done (VLong idx) st1 ->
  arrays st1 !! a = Some values ->
  (~ (0 <= idx < Z.of_nat (length values)) ->
     call_step host ev ast env (VArray a) n st = Done (VArray a) st1 /\
     call_loop host ev ast env (VArray a) (n :: rest) st =
       call_loop host ev ast env (VArray a) rest st1) /\
  (0 <= idx < Z.of_nat (length values) ->
     exists v, values !! Z.to_nat idx = Some v /\
       call_step host ev ast env (VArray a) n st = Done v st1 /\
       call_loop host ev ast env (VArray a) (n :: rest) st =
         call_loop host ev ast env v rest st1).
Proof.
  intros Htag Hidx Harr.
  assert (Hstep : call_step host ev ast env (VArray a) n st =
    if (0 <=? idx) && (idx <? Z.of_nat (length values))
    then match values !! Z.to_nat idx with
         | Some v => Done v st1
         | None => Fail Undefined
         end
    else Done (VArray a) st1).
  { unfold call_step, call_index. rewrite Htag. cbn.
    unfold bind at 1. rewrite Hidx. cbn.
    unfold bind, array_values. rewrite Harr.
    destruct ((0 <=? idx) && (idx <? Z.of_nat (length values))); [|done].
    by destruct (values !! Z.to_nat idx). }
  split.
  - intros Hout.
    assert ((0 <=? idx) && (idx <? Z.of_nat (length values)) = false) as Hb.
    { apply andb_false_iff. rewrite Z.leb_gt, Z.ltb_ge. lia. }
    rewrite Hb in Hstep. split; [done|].
    cbn [call_loop]. by rewrite (bind_done _ _ _ _ _ Hstep).
  - intros Hin.
    assert ((0 <=? idx) && (idx <? Z.of_nat (length values)) = true) as Hb.
    { apply andb_true_iff. rewrite Z.leb_le, Z.ltb_lt. lia. }
    rewrite Hb in Hstep.
    destruct (lookup_lt_is_Some_2 values (Z.to_nat idx)) as [v Hv]; [lia|].
    rewrite Hv in Hstep. exists v. split; [done|]. split; [done|].
    cbn [call_loop]. by rewrite (bind_done _ _ _ _ _ Hstep).
Qed.

Lemma index_step_bounds_witness :
  call_step Sample.bare (eval Sample.bare 1) (Sample.call (Sample.ident "a") [])
    Sample.root (VArray 0) (Sample.index (Sample.num "2")) Sample.with_array
  = Done (VArray 0) Sample.with_array /\
  exists v,
    [VLong 5; VLong 6] !! Z.to_nat 1 = Some v /\
    call_step Sample.bare (eval Sample.bare 1)
      (Sample.call (Sample.ident "a") []) Sample.root (VArray 0)
      (Sample.index (Sample.num "1")) Sample.with_array
    = Done v Sample.with_array.
Proof.
  split.
  - refine (proj1 (proj1 (index_step_bounds Sample.bare (eval Sample.bare 1)
      (Sample.call (Sample.ident "a") []) Sample.root 0%nat
      (Sample.index (Sample.num "2")) [] Sample.with_array 2 Sample.with_array
      [VLong 5; VLong 6] eq_refl eq_refl eq_refl) _)).
    cbn. lia.
  - destruct (proj2 (index_step_bounds Sample.bare (eval Sample.bare 1)
      (Sample.call (Sample.ident "a") []) Sample.root 0%nat
      (Sample.index (Sample.num "1")) [] Sample.with_array 1 Sample.with_array
      [VLong 5; VLong 6] eq_refl eq_refl eq_refl)) as (v & Hv & Hstep & _).
    + cbn. lia.
    + exists v. split; [exact Hv|exact Hstep].
Defined.

(** ** The postfix chain: calls *)

Lemma evals_length ev env es st vs st1 :
  evals ev env es st vs st1 -> length vs = length es.
Proof. induction 1; cbn; congruence. Qed.

Lemma bind_params_app ev params args extra env E st :
  length args = length params ->
  bind_params ev params (args ++ extra) env E st =
  bind_params ev params args env E st.
Proof.
  revert args E st. induction params as [|p ps IH]; intros args E st Hlen.
  - by destruct args.
  - destruct args as [|a args]; [done|]. cbn in Hlen. cbn.
    unfold bind. destruct (ev a env st) as [v st1| |]; [|done..].
    apply IH. lia.
Qed.

Lemma bind_params_take ev params args env E st :
  (length params <= length args)%nat ->
  bind_params ev params args env E st =
  bind_params ev params (take (length params) args) env E st.
Proof.
  intros Hlen.
  rewrite <- (take_drop (length params) args) at 1.
  apply bind_params_app. rewrite length_take. lia.
Qed.

Lemma bind_params_evals ev params args env E st vs st1 :
  length args = length params ->
  evals ev env args st vs st1 ->
  bind_params ev params args env E st = Done (with_parameters params vs E) st1.
Proof.
  intros Hlen Hev. revert params E Hlen.
  induction Hev as [st|a args st v st1 vs st2 Ha Hev IH]; intros params E Hlen.
  - by destruct params.
  - destruct params as [|p ps]; [done|]. cbn in Hlen. cbn.
    rewrite (bind_done _ _ _ _ _ Ha). apply IH. lia.
Qed.

Lemma call_arguments_evals host ev ast env f n st vs st1 :
  (length (fn_params f) <= length (nodes n))%nat ->
  evals ev env (take (length (fn_params f)) (nodes n)) st vs st1 ->
  call_arguments host ev ast env (VFunction f) n st =
  invoke host ev f (fresh (dom (envs st1)))
    (set_envs (insert (fresh (dom (envs st1)))
                 (call_frame ast (VFunction f) (fn_params f) vs)) st1).
Proof.
  intros Hlen Hev. unfold call_arguments. cbn.
  unfold bind at 1. cbn.
  destruct (Nat.leb_spec (length (fn_params f)) (length (nodes n))); [|lia].
  unfold call_environment, bind. rewrite bind_params_take by done.
  rewrite (bind_params_evals _ _ _ _ _ _ vs st1); [done| |done].
  rewrite length_take. lia.
Qed.

(** C3.  A call with at least as many arguments as the function has
    parameters goes on to invoke the function, whatever the arguments
    beyond the parameters are; a call with fewer arguments fails with
    [ArgumentError], whatever the evaluator and the host would do with
    the body or the arguments: none of them is evaluated. *)
Theorem call_arity host ev ast env f n st :
  original_tag n = ARGUMENTS ->
  ((length (fn_params f) <= length (nodes n))%nat ->
     forall vs st1,
       evals ev env (take (length (fn_params f)) (nodes n)) st vs st1 ->
       exists callEnv E,
         (callEnv ∉ dom (envs st1)) /\
         call_step host ev ast env (VFunction f) n st =
           invoke host ev f callEnv (set_envs (insert callEnv E) st1)) /\
  ((length (nodes n) < length (fn_params f))%nat ->
     forall host' ev',
       call_step host' ev' ast env (VFunction f) n st = Fail ArgumentError).
Proof.
  intros Htag. split.
  - intros Hlen vs st1 Hev.
    exists (fresh (dom (envs st1))), (call_frame ast (VFunction f) (fn_params f) vs).
    split; [apply is_fresh|].
    unfold call_step. rewrite Htag. by apply call_arguments_evals.
  - intros Hlen host' ev'. unfold call_step. rewrite Htag.
    unfold call_arguments. cbn. unfold bind. cbn.
    by destruct (Nat.leb_spec (length (fn_params f)) (length (nodes n))); [lia|].
Qed.

Lemma call_arity_witness :
  call_step Sample.bare (eval Sample.bare 1) (Sample.call (Sample.ident "f") [])
    Sample.root (VFunction Sample.identity) (Sample.arguments []) Sample.start
  = Fail ArgumentError /\
  exists callEnv E,
    call_step Sample.bare (eval Sample.bare 1)
      (Sample.call (Sample.ident "f") []) Sample.root
      (VFunction Sample.identity)
      (Sample.arguments [Sample.num "7"; Sample.ident "nowhere"]) Sample.start
    = invoke Sample.bare (eval Sample.bare 1) Sample.identity callEnv
        (set_envs (insert callEnv E) Sample.start).
Proof.
  split.
  - refine (proj2 (call_arity Sample.bare (eval Sample.bare 1)
      (Sample.call (Sample.ident "f") []) Sample.root Sample.identity
      (Sample.arguments []) Sample.start eq_refl) _
      Sample.bare (eval Sample.bare 1)).
    cbn. lia.
  - destruct (proj1 (call_arity Sample.bare (eval Sample.bare 1)
      (Sample.call (Sample.ident "f") []) Sample.root Sample.identity
      (Sample.arguments [Sample.num "7"; Sample.ident "nowhere"])
      Sample.start eq_refl)) with [VLong 7] Sample.start
      as (callEnv & E & _ & Hstep).
    + cbn. lia.
    + cbn. eapply evals_cons; [reflexivity|apply evals_nil].
    + exists callEnv, E. exact Hstep.
Defined.

(** C4.  With as many leading arguments as parameters, the arguments that
    follow change nothing: the call has the result, and leaves the store,
    of the call without them.  They are not evaluated. *)
Theorem excess_arguments_not_evaluated host ev ast env f n n' args extra st :
  original_tag n = ARGUMENTS ->
  original_tag n' = ARGUMENTS ->
  length args = length (fn_params f) ->
  nodes n = args ++ extra ->
  nodes n' = args ->
  call_step host ev ast env (VFunction f) n st =
  call_step host ev ast env (VFunction f) n' st.
Proof.
  intros Htag Htag' Hlen Hn Hn'. unfold call_step. rewrite Htag, Htag'.
  unfold call_arguments. cbn. unfold bind at 1. unfold bind at 3. cbn.
  rewrite Hn, Hn', length_app, Hlen.
  destruct (Nat.leb_spec (length (fn_params f)) (length (fn_params f) + length extra));
    [|lia].
  rewrite Nat.leb_refl.
  unfold call_environment. unfold bind.
  by rewrite bind_params_app by done.
Qed.

Lemma excess_arguments_not_evaluated_witness :
  call_step Sample.bare (eval Sample.bare 2) (Sample.call (Sample.ident "f") [])
    Sample.root (VFunction Sample.identity)
    (Sample.arguments [Sample.num "7"; Sample.ident "nowhere"]) Sample.start
  = call_step Sample.bare (eval Sample.bare 2) (Sample.call (Sample.ident "f") [])
    Sample.root (VFunction Sample.identity)
    (Sample.arguments [Sample.num "7"]) Sample.start.
Proof.
  apply (excess_arguments_not_evaluated _ _ _ _ _ _ _
           [Sample.num "7"] [Sample.ident "nowhere"]); reflexivity.
Defined.

(** *** The call environment *)

Lemma with_parameters_cons p ps v vs E :
  with_parameters (p :: ps) (v :: vs) E =
  with_parameters ps vs (env_initialize (name p) v (mut p) E).
Proof. reflexivity. Qed.

Lemma with_parameters_shape params vs E :
  outers (with_parameters params vs E) = outers E /\
  object (with_parameters params vs E) = object E.
Proof.
  revert vs E. induction params as [|p ps IH]; intros [|v vs] E; try done.
  rewrite with_parameters_cons. by destruct (IH vs (env_initialize (name p) v (mut p) E)).
Qed.

Lemma with_parameters_other params vs E s :
  (forall p, p ∈ params -> name p <> s) ->
  dic (with_parameters params vs E) !! s = dic E !! s.
Proof.
  revert vs E. induction params as [|p ps IH]; intros [|v vs] E Hs; try done.
  rewrite with_parameters_cons, IH.
  - cbn. apply lookup_insert_ne, Hs. by left.
  - intros q Hq. apply Hs. by right.
Qed.

Lemma with_parameters_lookup params vs E i p v :
  params !! i = Some p ->
  vs !! i = Some v ->
  (forall j q, (i < j)%nat -> params !! j = Some q -> name q <> name p) ->
  dic (with_parameters params vs E) !! name p = Some (symbol v (mut p)).
Proof.
  revert vs E i. induction params as [|p0 ps IH]; intros [|v0 vs] E i Hp Hv Hlast;
    try done.
  rewrite with_parameters_cons. destruct i as [|i]; cbn in Hp, Hv.
  - injection Hp as ->. injection Hv as ->.
    rewrite with_parameters_other.
    + cbn. apply lookup_insert_eq.
    + intros q Hq. apply list_elem_of_lookup in Hq as [j Hj].
      apply (Hlast (S j)); [lia|done].
  - apply (IH vs _ i); [done..|].
    intros j q Hij Hq. apply (Hlast (S j)); [lia|done].
Qed.

Lemma set_envs_insert_id st e E :
  envs st !! e = Some E -> set_envs (insert e E) st = st.
Proof.
  intros H. destruct st as [es os ars]. unfold set_envs. cbn in *.
  by rewrite insert_id.
Qed.

Lemma set_envs_insert_insert st e E E' :
  set_envs (insert e E') (set_envs (insert e E) st) = set_envs (insert e E') st.
Proof. unfold set_envs. cbn. by rewrite insert_insert_eq. Qed.

Lemma invoke_bound host ev params val pf callEnv st E :
  envs st !! callEnv = Some E ->
  invoke host ev (Method params val pf) callEnv st =
  invoke host ev pf callEnv
    (set_envs (insert callEnv
       (match val with
        | VObject o => env_set_object o (env_initialize "this" val false E)
        | _ => env_initialize "this" val false E
        end)) st).
Proof.
  intros HE. cbn [invoke]. unfold bind at 1.
  unfold initialize, modify_env. rewrite HE.
  destruct val; cbn; try done.
  unfold bind, set_object, modify_env. cbn. rewrite lookup_insert_eq.
  unfold set_envs. cbn. by rewrite insert_insert_eq.
Qed.

(** From the call environment to the body: what the callee does first is
    the passage from [E] to [at_body f E]. *)
Lemma invoke_at_body host ev f callEnv st E :
  envs st !! callEnv = Some E ->
  invoke host ev f callEnv st =
  run_body host ev f callEnv (set_envs (insert callEnv (at_body f E)) st).
Proof.
  revert st E. induction f as [ps body denv|ps val pf IH|ps code]; intros st E HE.
  - cbn [invoke run_body at_body].
    unfold append_outer, modify_env, bind. by rewrite HE.
  - rewrite (invoke_bound _ _ _ _ _ _ _ E) by done.
    rewrite (IH _ _ (lookup_insert_eq _ _ _)).
    by rewrite set_envs_insert_insert.
  - cbn [invoke run_body at_body]. by rewrite set_envs_insert_id.
Qed.

Lemma at_body_other f E s :
  s <> "this"%string -> dic (at_body f E) !! s = dic E !! s.
Proof.
  intros Hs. revert E. induction f as [ps body denv|ps val pf IH|ps code];
    intros E; cbn [at_body]; [done| |done].
  rewrite IH. destruct val; cbn; by rewrite lookup_insert_ne.
Qed.

Lemma at_body_plain f E :
  is_method f = false -> dic (at_body f E) = dic E.
Proof. by destruct f. Qed.

Lemma at_body_lookup f E s :
  (is_method f = true -> s <> "this"%string) ->
  dic (at_body f E) !! s = dic E !! s.
Proof.
  intros Hs. destruct (is_method f) eqn:Hf.
  - by apply at_body_other, Hs.
  - by rewrite at_body_plain.
Qed.

(** C7, as the code has it.  When the arguments that stand for the
    parameters evaluate, in the caller's environment and from left to
    right, to [vs], the function is invoked on an environment [callEnv] that
    no value had before, handed over with no outer scope and no object;
    and when the body is evaluated, [__LINE__] and [__COLUMN__] are
    immutable there and hold the position of the call; [self] is
    immutable and holds the function unless a parameter is called
    [self]; and a parameter holds its argument's value, with its own
    mutability, unless it is called [__LINE__] or [__COLUMN__], or a
    later parameter has its name, or the function was made by a DOT step
    and the parameter is called [this]: such a function initializes
    [this] after everything else. *)
Theorem call_environment_bindings host ev ast env f n st vs st1 :
  original_tag n = ARGUMENTS ->
  (length (fn_params f) <= length (nodes n))%nat ->
  evals ev env (take (length (fn_params f)) (nodes n)) st vs st1 ->
  exists callEnv E0 E,
    (callEnv ∉ dom (envs st1)) /\
    call_step host ev ast env (VFunction f) n st =
      invoke host ev f callEnv (set_envs (insert callEnv E0) st1) /\
    outers E0 = [] /\ object E0 = None /\
    call_step host ev ast env (VFunction f) n st =
      run_body host ev f callEnv (set_envs (insert callEnv E) st1) /\
    dic E !! "__LINE__" = Some (symbol (VLong (wrap (line ast))) false) /\
    dic E !! "__COLUMN__" = Some (symbol (VLong (wrap (column ast))) false) /\
    ((forall p, p ∈ fn_params f -> name p <> "self") ->
       dic E !! "self" = Some (symbol (VFunction f) false)) /\
    (forall i p v,
       fn_params f !! i = Some p ->
       vs !! i = Some v ->
       name p <> "__LINE__" -> name p <> "__COLUMN__" ->
       (is_method f = true -> name p <> "this") ->
       (forall j q, (i < j)%nat -> fn_params f !! j = Some q -> name q <> name p) ->
       dic E !! name p = Some (symbol v (mut p))) /\
    (forall ps val pf,
       f = Method ps val pf -> is_method pf = false ->
       dic E !! "this" = Some (symbol val false)).
Proof.
  intros Htag Hlen Hev.
  set (callEnv := fresh (dom (envs st1))).
  set (E0 := call_frame ast (VFunction f) (fn_params f) vs).
  assert (Hstep : call_step host ev ast env (VFunction f) n st =
    invoke host ev f callEnv (set_envs (insert callEnv E0) st1)).
  { unfold call_step. rewrite Htag. by apply call_arguments_evals. }
  exists callEnv, E0, (at_body f E0).
  split; [apply is_fresh|]. split; [done|].
  destruct (with_parameters_shape (fn_params f) vs
              (env_initialize "self" (VFunction f) false empty_env))
    as [Houters Hobject].
  split; [by unfold E0, call_frame; cbn; rewrite Houters|].
  split; [by unfold E0, call_frame; cbn; rewrite Hobject|].
  split.
  { rewrite Hstep, (invoke_at_body _ _ _ _ _ E0) by apply lookup_insert_eq.
    by rewrite set_envs_insert_insert. }
  repeat split.
  - rewrite at_body_other by done. unfold E0, call_frame. cbn.
    by rewrite lookup_insert_ne, lookup_insert_eq.
  - rewrite at_body_other by done. unfold E0, call_frame. cbn.
    by rewrite lookup_insert_eq.
  - intros Hself. rewrite at_body_other by done. unfold E0, call_frame. cbn.
    rewrite !lookup_insert_ne by done.
    rewrite with_parameters_other by done. cbn. apply lookup_insert_eq.
  - intros i p v Hp Hv Hline Hcol Hthis Hlast.
    rewrite at_body_lookup by done. unfold E0, call_frame. cbn.
    rewrite !lookup_insert_ne by done.
    by apply (with_parameters_lookup _ _ _ i).
  - intros ps val pf -> Hpf. cbn [at_body]. rewrite at_body_plain by done.
    destruct val; cbn; apply lookup_insert_eq.
Qed.

Lemma call_environment_bindings_witness :
  exists callEnv E,
    call_step Sample.bare (eval Sample.bare 2)
      (Sample.call (Sample.ident "f") []) Sample.root
      (VFunction Sample.identity)
      (Sample.arguments [Sample.num "7"; Sample.ident "nowhere"]) Sample.start
    = run_body Sample.bare (eval Sample.bare 2) Sample.identity callEnv
        (set_envs (insert callEnv E) Sample.start) /\
    dic E !! "x" = Some (symbol (VLong 7) false) /\
    dic E !! "self" = Some (symbol (VFunction Sample.identity) false) /\
    dic E !! "__LINE__" = Some (symbol (VLong 3) false).
Proof.
  destruct (call_environment_bindings Sample.bare (eval Sample.bare 2)
    (Sample.call (Sample.ident "f") []) Sample.root Sample.identity
    (Sample.arguments [Sample.num "7"; Sample.ident "nowhere"]) Sample.start
    [VLong 7] Sample.start)
    as (callEnv & E0 & E & _ & _ & _ & _ & Hcall & Hline & _ & Hself & Hparams & _).
  - reflexivity.
  - cbn. lia.
  - cbn. eapply evals_cons; [reflexivity|apply evals_nil].
  - exists callEnv, E. split; [exact Hcall|]. split; [|split].
    + apply (Hparams 0%nat {| name := "x"; mut := false |} (VLong 7));
        [reflexivity|reflexivity|discriminate|discriminate|discriminate|].
      intros [|j] q Hj Hq; [lia|discriminate].
    + apply Hself. intros p Hp. apply list_elem_of_singleton in Hp as ->.
      discriminate.
    + exact Hline.
Defined.

(** C7, as the specification has it, fails for a function whose parameter
    is called [self]: the parameter is initialized after [self] and the
    last write wins, so in the call environment [self] holds the argument
    7, not the function. *)
Lemma call_environment_self_shadowed :
  exists E,
    call_environment (eval Sample.bare 1) (Sample.call (Sample.ident "f") [])
      Sample.root (VFunction Sample.shadowing) (fn_params Sample.shadowing)
      [Sample.num "7"] Sample.start = Done E Sample.start /\
    dic E !! "self" = Some (symbol (VLong 7) false) /\
    dic E !! "self" <> Some (symbol (VFunction Sample.shadowing) false).
Proof.
  eexists. split; [reflexivity|]. split; [reflexivity|]. discriminate.
Qed.

(** ** The postfix chain: properties *)

(** What the closure made by the DOT branch does to the call environment
    before it calls the property: [this], then the receiver object. *)
Lemma invoke_method host ev params val pf callEnv st E :
  envs st !! callEnv = Some E ->
  invoke host ev (Method params val pf) callEnv st =
  invoke host ev pf callEnv
    (set_envs (insert callEnv
       (match val with
        | VObject o => env_set_object o (env_initialize "this" val false E)
        | _ => env_initialize "this" val false E
        end)) st).
Proof.
  intros HE. cbn [invoke]. unfold bind at 1.
  unfold initialize, modify_env. rewrite HE.
  destruct val; cbn; try done.
  unfold bind, set_object, modify_env. cbn. rewrite lookup_insert_eq.
  unfold set_envs. cbn. by rewrite insert_insert_eq.
Qed.

(** C8.  A DOT step whose property is a function makes the running value
    a new function with the same parameters; invoked on a call
    environment, it initializes [this], immutable, to the receiver,
    attaches the receiver when it is an object, and only then invokes the
    property.  A property that is not a function becomes the running
    value as it is. *)
Theorem dot_step_binds_receiver host ev ast env val n st prop st1 :
  original_tag n = DOT ->
  get_property host val (token n) st = Done prop st1 ->
  (forall pf, prop = VFunction pf ->
     exists f,
       call_step host ev ast env val n st = Done (VFunction f) st1 /\
       fn_params f = fn_params pf /\
       forall ev' callEnv st' E,
         envs st' !! callEnv = Some E ->
         exists E',
           invoke host ev' f callEnv st' =
             invoke host ev' pf callEnv (set_envs (insert callEnv E') st') /\
           dic E' !! "this" = Some (symbol val false) /\
           (forall s, s <> "this"%string -> dic E' !! s = dic E !! s) /\
           outers E' = outers E /\
           object E' = match val with VObject o => Some o | _ => object E end) /\
  ((forall pf, prop <> VFunction pf) ->
     call_step host ev ast env val n st = Done prop st1).
Proof.
  intros Htag Hprop.
  assert (Hstep : call_step host ev ast env val n st =
    match prop with
    | VFunction pf => Done (VFunction (Method (fn_params pf) val pf)) st1
    | _ => Done prop st1
    end).
  { unfold call_step, call_dot. rewrite Htag.
    rewrite (bind_done _ _ _ _ _ Hprop). by destruct prop. }
  split.
  - intros pf ->. exists (Method (fn_params pf) val pf).
    split; [done|]. split; [done|].
    intros ev' callEnv st' E HE. eexists. split; [by apply invoke_method|].
    destruct val; cbn; repeat split;
      try apply lookup_insert_eq; intros; by apply lookup_insert_ne.
  - intros Hnot. rewrite Hstep. destruct prop; try done. by destruct (Hnot f).
Qed.

Lemma dot_step_binds_receiver_witness :
  call_step Sample.bare (eval Sample.bare 1) (Sample.call (Sample.ident "o") [])
    Sample.root (VObject 0) (Sample.dot "n") Sample.with_object
  = Done (VLong 5) Sample.with_object /\
  exists f,
    call_step Sample.bare (eval Sample.bare 1)
      (Sample.call (Sample.ident "o") []) Sample.root (VObject 0)
      (Sample.dot "m") Sample.with_object
    = Done (VFunction f) Sample.with_object /\
    fn_params f = fn_params Sample.identity.
Proof.
  split.
  - refine (proj2 (dot_step_binds_receiver Sample.bare (eval Sample.bare 1)
      (Sample.call (Sample.ident "o") []) Sample.root (VObject 0)
      (Sample.dot "n") Sample.with_object (VLong 5) Sample.with_object
      eq_refl eq_refl) _).
    discriminate.
  - destruct (proj1 (dot_step_binds_receiver Sample.bare (eval Sample.bare 1)
      (Sample.call (Sample.ident "o") []) Sample.root (VObject 0)
      (Sample.dot "m") Sample.with_object (VFunction Sample.identity)
      Sample.with_object eq_refl eq_refl) Sample.identity eq_refl)
      as (f & Hstep & Hparams & _).
    exists f. split; [exact Hstep|exact Hparams].
Defined.

(** ** Logical operators *)

Lemma or_loop_skips ev env pre rest r st st1 :
  yields_all ev env false pre st st1 ->
  or_loop ev (pre ++ rest) env r st =
  or_loop ev rest env (if pre is [] then r else VBool false) st1.
Proof.
  intros H. revert r. induction H as [st|e es st st1 st2 He Hes IH]; intros r.
  - done.
  - cbn [app or_loop]. rewrite (bind_done _ _ _ _ _ He). cbn.
    rewrite IH. by destruct es.
Qed.

Lemma and_loop_skips ev env pre rest r st st1 :
  yields_all ev env true pre st st1 ->
  and_loop ev (pre ++ rest) env r st =
  and_loop ev rest env (if pre is [] then r else VBool true) st1.
Proof.
  intros H. revert r. induction H as [st|e es st st1 st2 He Hes IH]; intros r.
  - done.
  - cbn [app and_loop]. rewrite (bind_done _ _ _ _ _ He). cbn.
    rewrite IH. by destruct es.
Qed.

Lemma eval_logical_or_loop ev ast env st :
  (forall n, nodes ast <> [n]) ->
  eval_logical_or ev ast env st = or_loop ev (nodes ast) env VUnit st.
Proof.
  intros H. unfold eval_logical_or.
  destruct (nodes ast) as [|n [|n' ns]]; try done. by destruct (H n).
Qed.

Lemma eval_logical_or_single ev ast env st n :
  nodes ast = [n] -> eval_logical_or ev ast env st = ev n env st.
Proof. intros H. unfold eval_logical_or. by rewrite H. Qed.

(** C9.  OR and AND go through their operands from left to right.
    OR stops at the first true operand and returns it, the operands after
    it being left alone; when every operand is false it returns the last.
    AND does the same with true and false exchanged.  An operand that is
    not a boolean, where its truth is tested, fails with [TypeMismatch];
    OR does not test its operand when it has a single one. *)
Theorem logical_short_circuit host fuel ast env pre x post st st1 :
  nodes ast = pre ++ x :: post ->
  (tag ast = LOGICAL_OR ->
   yields_all (eval host fuel) env false pre st st1 ->
   (forall st2, eval host fuel x env st1 = Done (VBool true) st2 ->
      eval host (S fuel) ast env st = Done (VBool true) st2) /\
   (forall st2, eval host fuel x env st1 = Done (VBool false) st2 ->
      post = [] ->
      eval host (S fuel) ast env st = Done (VBool false) st2) /\
   (forall v st2, eval host fuel x env st1 = Done v st2 ->
      (forall b, v <> VBool b) ->
      (eval host (S fuel) ast env st = Fail TypeMismatch <->
       (pre <> [] \/ post <> [])))) /\
  (tag ast = LOGICAL_AND ->
   yields_all (eval host fuel) env true pre st st1 ->
   (forall st2, eval host fuel x env st1 = Done (VBool false) st2 ->
      eval host (S fuel) ast env st = Done (VBool false) st2) /\
   (forall st2, eval host fuel x env st1 = Done (VBool true) st2 ->
      post = [] ->
      eval host (S fuel) ast env st = Done (VBool true) st2) /\
   (forall v st2, eval host fuel x env st1 = Done v st2 ->
      (forall b, v <> VBool b) ->
      eval host (S fuel) ast env st = Fail TypeMismatch)).
Proof.
  intros Hnodes. split; intros Htag Hpre.
  - assert (Hsingle : pre = [] -> post = [] ->
      eval host (S fuel) ast env st = eval host fuel x env st1).
    { intros -> ->. inversion Hpre; subst.
      rewrite eval_unfold. unfold eval_node. rewrite Htag.
      by apply eval_logical_or_single. }
    assert (Hloop : pre <> [] \/ post <> [] ->
      eval host (S fuel) ast env st =
      or_loop (eval host fuel) (x :: post) env
        (if pre is [] then VUnit else VBool false) st1).
    { intros Hmany. rewrite eval_unfold. unfold eval_node. rewrite Htag.
      rewrite eval_logical_or_loop.
      - rewrite Hnodes. by apply or_loop_skips.
      - intros n Hn. rewrite Hnodes in Hn.
        destruct pre as [|? [|? ?]], post; try done; by destruct Hmany. }
    assert (Hcases : (pre = [] /\ post = []) \/ (pre <> [] \/ post <> [])).
    { destruct pre, post; auto. }
    repeat split.
    + intros st2 Hx. destruct Hcases as [[-> ->]|Hmany].
      * by rewrite Hsingle.
      * rewrite (Hloop Hmany). cbn [or_loop]. by rewrite (bind_done _ _ _ _ _ Hx).
    + intros st2 Hx ->. destruct Hcases as [[-> _]|Hmany].
      * by rewrite Hsingle.
      * rewrite (Hloop Hmany). cbn [or_loop]. by rewrite (bind_done _ _ _ _ _ Hx).
    + intros Hfail. destruct Hcases as [[-> ->]|Hmany]; [|done].
      rewrite Hsingle, H in Hfail by done. discriminate.
    + intros Hmany. rewrite (Hloop Hmany). cbn [or_loop].
      rewrite (bind_done _ _ _ _ _ H). destruct v; try done. by destruct (H0 b).
  - assert (Hloop : eval host (S fuel) ast env st =
      and_loop (eval host fuel) (x :: post) env
        (if pre is [] then VUnit else VBool true) st1).
    { rewrite eval_unfold. unfold eval_node. rewrite Htag.
      unfold eval_logical_and. rewrite Hnodes. by apply and_loop_skips. }
    rewrite Hloop. cbn [and_loop]. repeat split.
    + intros st2 Hx. by rewrite (bind_done _ _ _ _ _ Hx).
    + intros st2 Hx ->. by rewrite (bind_done _ _ _ _ _ Hx).
    + intros v st2 Hx Hv. rewrite (bind_done _ _ _ _ _ Hx).
      destruct v; try done. by destruct (Hv b).
Qed.

Lemma logical_short_circuit_witness :
  eval Sample.bare 2
    (Sample.node LOGICAL_OR
       [Sample.boolean "false"; Sample.boolean "true"; Sample.ident "nowhere"])
    Sample.root Sample.start
  = Done (VBool true) Sample.start.
Proof.
  refine (proj1 (proj1 (logical_short_circuit Sample.bare 1
    (Sample.node LOGICAL_OR
       [Sample.boolean "false"; Sample.boolean "true"; Sample.ident "nowhere"])
    Sample.root [Sample.boolean "false"] (Sample.boolean "true")
    [Sample.ident "nowhere"] Sample.start Sample.start _) _ _) _ _).
  - reflexivity.
  - reflexivity.
  - eapply yields_cons; [reflexivity|apply yields_nil].
  - reflexivity.
Defined.

(** ** Arithmetic *)

Lemma wrap_in_long z : in_long z = true -> wrap z = z.
Proof.
  unfold in_long, wrap, LONG_MIN, LONG_MAX. intros H.
  apply andb_true_iff in H as [H1 H2].
  apply Z.leb_le in H1. apply Z.leb_le in H2.
  rewrite Z.mod_small; lia.
Qed.

Lemma wrap_range z : in_long (wrap z) = true.
Proof.
  unfold in_long, wrap, LONG_MIN, LONG_MAX.
  pose proof (Z.mod_pos_bound (z + 2 ^ 63) (2 ^ 64) ltac:(lia)).
  apply andb_true_iff. rewrite !Z.leb_le. lia.
Qed.

Lemma eval_binary host fuel ast env l o r st a st1 b st2 ope st3 :
  tag ast = ADDITIVE \/ tag ast = MULTIPLICATIVE ->
  nodes ast = [l; o; r] ->
  eval host fuel l env st = Done (VLong a) st1 ->
  eval host fuel r env st1 = Done (VLong b) st2 ->
  eval host fuel o env st2 = Done (VString ope) st3 ->
  eval host (S fuel) ast env st =
  (x <- bin_op (first_char ope) a b ;; ret (VLong x)) st3.
Proof.
  intros Htag Hnodes Hl Hr Ho.
  assert (eval host (S fuel) ast env st =
          eval_bin_expression (eval host fuel) ast env st) as ->.
  { rewrite eval_unfold. unfold eval_node. by destruct Htag as [-> | ->]. }
  unfold eval_bin_expression. rewrite Hnodes.
  rewrite (bind_done _ _ _ _ _ Hl). cbn [to_long]. rewrite bind_ret.
  cbn [bin_loop]. rewrite bind_assoc, (bind_done _ _ _ _ _ Hr).
  cbn [to_long]. rewrite bind_assoc, bind_ret.
  rewrite bind_assoc, (bind_done _ _ _ _ _ Ho).
  cbn [to_string]. rewrite bind_assoc, bind_ret, bind_assoc.
  unfold bind. by destruct (bin_op (first_char ope) a b st3).
Qed.

(** C5, as the code has it.  On two numbers, [+], [-] and [*] give the
    sum, the difference and the product reduced to a 64-bit [long], which
    is the exact integer whenever that fits.  A zero divisor is not
    looked for: [/] and [%] divide by it, which the language leaves
    undefined. *)
Theorem binary_arithmetic host fuel ast env l o r st a st1 b st2 ope st3 :
  tag ast = ADDITIVE \/ tag ast = MULTIPLICATIVE ->
  nodes ast = [l; o; r] ->
  eval host fuel l env st = Done (VLong a) st1 ->
  eval host fuel r env st1 = Done (VLong b) st2 ->
  eval host fuel o env st2 = Done (VString ope) st3 ->
  (first_char ope = "+"%char ->
     eval host (S fuel) ast env st = Done (VLong (wrap (a + b))) st3 /\
     (in_long (a + b) = true -> wrap (a + b) = a + b)) /\
  (first_char ope = "-"%char ->
     eval host (S fuel) ast env st = Done (VLong (wrap (a - b))) st3 /\
     (in_long (a - b) = true -> wrap (a - b) = a - b)) /\
  (first_char ope = "*"%char ->
     eval host (S fuel) ast env st = Done (VLong (wrap (a * b))) st3 /\
     (in_long (a * b) = true -> wrap (a * b) = a * b)) /\
  (first_char ope = "/"%char \/ first_char ope = "%"%char ->
     b = 0 ->
     eval host (S fuel) ast env st = Fail Undefined).
Proof.
  intros Htag Hnodes Hl Hr Ho.
  rewrite (eval_binary _ _ _ _ _ _ _ _ _ _ _ _ _ _ Htag Hnodes Hl Hr Ho).
  repeat split; try apply wrap_in_long.
  - by rewrite H.
  - by rewrite H.
  - by rewrite H.
  - intros [-> | ->] ->; reflexivity.
Qed.

Lemma binary_arithmetic_witness :
  eval Sample.bare 2 (Sample.binary ADDITIVE (Sample.num "40") "+" (Sample.num "2"))
    Sample.root Sample.start
  = Done (VLong (wrap (40 + 2))) Sample.start.
Proof.
  refine (proj1 (proj1 (binary_arithmetic Sample.bare 1
    (Sample.binary ADDITIVE (Sample.num "40") "+" (Sample.num "2"))
    Sample.root (Sample.num "40") (Sample.tok "+") (Sample.num "2")
    Sample.start 40 Sample.start 2 Sample.start "+" Sample.start
    _ _ _ _ _) _)).
  - left. reflexivity.
  - reflexivity.
  - reflexivity.
  - reflexivity.
  - reflexivity.
  - reflexivity.
Defined.

(** C5, as the specification has it, fails on [1 / 0] and on [1 % 0]:
    neither ends in [DivisionByZero]. *)
Lemma division_by_zero_unchecked :
  eval Sample.bare 2
    (Sample.binary MULTIPLICATIVE (Sample.num "1") "/" (Sample.num "0"))
    Sample.root Sample.start = Fail Undefined /\
  eval Sample.bare 2
    (Sample.binary MULTIPLICATIVE (Sample.num "1") "%" (Sample.num "0"))
    Sample.root Sample.start = Fail Undefined /\
  @Fail Value Undefined <> Fail DivisionByZero.
Proof. split; [reflexivity|]. split; [reflexivity|discriminate]. Qed.

(** ** Environments *)

Lemma first_found_map (g : Lookup -> Lookup) find os :
  g Missing = Missing ->
  (forall r, r <> Missing -> g r <> Missing) ->
  first_found (fun o => g (find o)) os = g (first_found find os).
Proof.
  intros Hmiss Hother. induction os as [|o os IH]; cbn; [done|].
  destruct (find o) as [o' b| |] eqn:Hfind.
  - specialize (Hother (Found o' b) ltac:(done)). by destruct (g (Found o' b)).
  - by rewrite Hmiss.
  - specialize (Hother Diverges ltac:(done)). by destruct (g Diverges).
Qed.

Lemma first_found_ext find find' os :
  (forall o, find o = find' o) -> first_found find os = first_found find' os.
Proof. intros H. induction os as [|o os IH]; cbn; [done|]. by rewrite H, IH. Qed.

Lemma first_found_Found find os owner b :
  first_found find os = Found owner b ->
  exists o, o ∈ os /\ find o = Found owner b.
Proof.
  induction os as [|o os IH]; cbn; [done|].
  destruct (find o) as [o' b'| |] eqn:Hfind; intros H; try done.
  - exists o. split; [by left|congruence].
  - destruct (IH H) as (o' & Hin & Ho'). exists o'. split; [by right|done].
Qed.

(** A binding that is found is a binding of its owner. *)
Lemma find_owner_Found depth st e s owner b :
  find_owner depth st e s = Found owner b ->
  binding st owner s = Some b.
Proof.
  revert e. induction depth as [|d IH]; intros e; cbn; [done|].
  destruct (envs st !! e) as [E|] eqn:HE; [|done].
  destruct (dic E !! s) as [b'|] eqn:Hs.
  - intros [= <- <-]. unfold binding. by rewrite HE.
  - intros H. apply first_found_Found in H as (o & _ & Ho). by apply (IH o).
Qed.

Lemma find_owner_update depth st e s owner Eo b v m :
  envs st !! owner = Some Eo ->
  dic Eo !! s = Some b ->
  find_owner depth (set_envs (insert owner (env_initialize s v m Eo)) st) e s =
  replaced owner (symbol v m) (find_owner depth st e s).
Proof.
  intros HEo Hb. revert e. induction depth as [|d IH]; intros e; cbn; [done|].
  destruct (decide (e = owner)) as [->|Hne].
  - rewrite lookup_insert_eq, HEo. cbn. rewrite lookup_insert_eq, Hb. cbn.
    by rewrite decide_True.
  - rewrite lookup_insert_ne by done.
    destruct (envs st !! e) as [E|]; [|done].
    destruct (dic E !! s) as [b'|]; cbn.
    + by rewrite decide_False.
    + rewrite <- first_found_map; [|done|by intros []].
      apply first_found_ext. intros o. apply IH.
Qed.

Lemma lookup_chain_update st e s owner Eo b v m :
  envs st !! owner = Some Eo ->
  dic Eo !! s = Some b ->
  lookup_chain (set_envs (insert owner (env_initialize s v m Eo)) st) e s =
  replaced owner (symbol v m) (lookup_chain st e s).
Proof.
  intros HEo Hb. unfold lookup_chain.
  replace (size (envs (set_envs (insert owner (env_initialize s v m Eo)) st)))
    with (size (envs st)).
  - by apply find_owner_update with b.
  - cbn. by rewrite map_size_insert_Some.
Qed.

Lemma lookup_chain_own st e s E b :
  envs st !! e = Some E -> dic E !! s = Some b ->
  lookup_chain st e s = Found e b.
Proof. intros HE Hb. unfold lookup_chain. cbn. by rewrite HE, Hb. Qed.

Lemma binding_initialize st e E s v m e' s' :
  binding (set_envs (insert e (env_initialize s v m E)) st) e' s' =
  if decide (e' = e)
  then if decide (s' = s) then Some (symbol v m) else dic E !! s'
  else binding st e' s'.
Proof.
  unfold binding. cbn. destruct (decide (e' = e)) as [->|Hne].
  - rewrite lookup_insert_eq. cbn. destruct (decide (s' = s)) as [->|Hs].
    + apply lookup_insert_eq.
    + by apply lookup_insert_ne.
  - by rewrite lookup_insert_ne.
Qed.

Lemma binding_Some st e s b :
  binding st e s = Some b ->
  exists E, envs st !! e = Some E /\ dic E !! s = Some b.
Proof.
  unfold binding. destruct (envs st !! e) as [E|]; [|done]. cbn. eauto.
Qed.

(** What is left of an assignment once its right-hand side has been
    evaluated. *)
Lemma eval_assignment_after ev ast env m var rhs rest st val st1 :
  nodes ast = m :: var :: rhs :: rest ->
  ev rhs env st = Done val st1 ->
  eval_assignment ev ast env st =
  (bound <- has env (token var) ;;
   (if (bound : bool) then assign env (token var) val
    else initialize env (token var) val (String.eqb (token m) "mut")) ;;
   ret val) st1.
Proof.
  intros Hnodes Hrhs. unfold eval_assignment, node_at. rewrite Hnodes. cbn.
  by rewrite (bind_done _ _ _ _ _ Hrhs).
Qed.

Lemma assign_mutable st env s val owner b :
  lookup_chain st env s = Found owner b ->
  sym_mut b = true ->
  exists Eo,
    envs st !! owner = Some Eo /\ dic Eo !! s = Some b /\
    assign env s val st =
      Done tt (set_envs (insert owner (env_initialize s val true Eo)) st).
Proof.
  intros Hfound Hmut.
  destruct (binding_Some _ _ _ _ (find_owner_Found _ _ _ _ _ _ Hfound))
    as (Eo & HEo & Hb).
  exists Eo. split; [done|]. split; [done|].
  unfold assign. rewrite Hfound, Hmut.
  unfold initialize, modify_env. by rewrite HEo.
Qed.

(** C6.  After the right-hand side has given [val]: a name the lookup
    chain finds in [owner] with a mutable binding gets [val] there, in
    place, and nothing else changes; found with an immutable binding, the
    assignment fails with [ImmutableBinding]; a name the chain does not
    know is bound in the current scope, mutable exactly when the
    qualifier of the assignment is [mut]. *)
Theorem assignment_binding host fuel ast env m var rhs rest st val st1 :
  tag ast = ASSIGNMENT ->
  nodes ast = m :: var :: rhs :: rest ->
  eval host fuel rhs env st = Done val st1 ->
  (forall owner b,
     lookup_chain st1 env (token var) = Found owner b ->
     if sym_mut b then
       exists st2,
         eval host (S fuel) ast env st = Done val st2 /\
         lookup_chain st2 env (token var) = Found owner (symbol val true) /\
         binding st2 owner (token var) = Some (symbol val true) /\
         (forall e s, (e, s) <> (owner, token var) ->
            binding st2 e s = binding st1 e s)
     else eval host (S fuel) ast env st = Fail ImmutableBinding) /\
  (lookup_chain st1 env (token var) = Missing ->
   is_Some (envs st1 !! env) ->
   exists st2,
     eval host (S fuel) ast env st = Done val st2 /\
     lookup_chain st2 env (token var) =
       Found env (symbol val (String.eqb (token m) "mut")) /\
     binding st2 env (token var) =
       Some (symbol val (String.eqb (token m) "mut")) /\
     (forall e s, (e, s) <> (env, token var) ->
        binding st2 e s = binding st1 e s)).
Proof.
  intros Htag Hnodes Hrhs.
  assert (Heval : eval host (S fuel) ast env st =
    (bound <- has env (token var) ;;
     (if (bound : bool) then assign env (token var) val
      else initialize env (token var) val (String.eqb (token m) "mut")) ;;
     ret val) st1).
  { rewrite eval_unfold. unfold eval_node. rewrite Htag.
    by apply eval_assignment_after with rhs rest. }
  rewrite Heval. split.
  - intros owner b Hfound.
    assert (Hhas : has env (token var) st1 = Done true st1).
    { unfold has. by rewrite Hfound. }
    rewrite (bind_done _ _ _ _ _ Hhas).
    destruct (sym_mut b) eqn:Hmut.
    + destruct (assign_mutable _ _ _ val _ _ Hfound Hmut) as (Eo & HEo & Hb & Hassign).
      eexists. split; [by rewrite (bind_done _ _ _ _ _ Hassign)|].
      split; [|split].
      * rewrite (lookup_chain_update _ _ _ _ _ b) by done.
        rewrite Hfound. cbn. by rewrite decide_True.
      * rewrite binding_initialize. by rewrite !decide_True.
      * intros e s Hne. rewrite binding_initialize.
        destruct (decide (e = owner)) as [->|]; [|done].
        destruct (decide (s = token var)) as [->|]; [done|].
        unfold binding. by rewrite HEo.
    + unfold bind, assign. by rewrite Hfound, Hmut.
  - intros Hmissing [E HE].
    assert (Hhas : has env (token var) st1 = Done false st1).
    { unfold has. by rewrite Hmissing. }
    rewrite (bind_done _ _ _ _ _ Hhas).
    eexists. split.
    { unfold bind, initialize, modify_env. by rewrite HE. }
    split; [|split].
    + apply lookup_chain_own with (env_initialize (token var) val
        (String.eqb (token m) "mut") E); [apply lookup_insert_eq|].
      cbn. apply lookup_insert_eq.
    + rewrite binding_initialize. by rewrite !decide_True.
    + intros e s Hne. rewrite binding_initialize.
      destruct (decide (e = env)) as [->|]; [|done].
      destruct (decide (s = token var)) as [->|]; [done|].
      unfold binding. by rewrite HE.
Qed.

Lemma assignment_binding_witness :
  (exists st2,
     eval Sample.bare 2 (Sample.assignment "" "x" (Sample.num "2"))
       Sample.root (Sample.with_x true) = Done (VLong 2) st2 /\
     binding st2 Sample.root "x" = Some (symbol (VLong 2) true)) /\
  eval Sample.bare 2 (Sample.assignment "" "x" (Sample.num "2"))
    Sample.root (Sample.with_x false) = Fail ImmutableBinding /\
  (exists st2,
     eval Sample.bare 2 (Sample.assignment "mut" "x" (Sample.num "1"))
       Sample.root Sample.start = Done (VLong 1) st2 /\
     binding st2 Sample.root "x" = Some (symbol (VLong 1) true)).
Proof.
  split; [|split].
  - destruct (proj1 (assignment_binding Sample.bare 1
      (Sample.assignment "" "x" (Sample.num "2")) Sample.root
      (Sample.tok "") (Sample.tok "x") (Sample.num "2") []
      (Sample.with_x true) (VLong 2) (Sample.with_x true)
      eq_refl eq_refl eq_refl) Sample.root (symbol (VLong 1) true) eq_refl)
      as (st2 & Heval & _ & Hbinding & _).
    exists st2. split; [exact Heval|exact Hbinding].
  - exact (proj1 (assignment_binding Sample.bare 1
      (Sample.assignment "" "x" (Sample.num "2")) Sample.root
      (Sample.tok "") (Sample.tok "x") (Sample.num "2") []
      (Sample.with_x false) (VLong 2) (Sample.with_x false)
      eq_refl eq_refl eq_refl) Sample.root (symbol (VLong 1) false) eq_refl).
  - destruct (proj2 (assignment_binding Sample.bare 1
      (Sample.assignment "mut" "x" (Sample.num "1")) Sample.root
      (Sample.tok "mut") (Sample.tok "x") (Sample.num "1") []
      Sample.start (VLong 1) Sample.start
      eq_refl eq_refl eq_refl) eq_refl (mk_is_Some _ _ eq_refl))
      as (st2 & Heval & _ & Hbinding & _).
    exists st2. split; [exact Heval|exact Hbinding].
Defined.

(** C10.  An assignment that succeeds has the value of its right-hand
    side: that side is evaluated once, from the store the assignment
    starts in, and the test whether the name is bound, and the binding,
    work on the store this evaluation leaves.  Conversely, once the
    right-hand side has given a value, the assignment can only end with
    that value. *)
Theorem assignment_value host fuel ast env m var rhs rest st :
  tag ast = ASSIGNMENT ->
  nodes ast = m :: var :: rhs :: rest ->
  (forall r st2,
     eval host (S fuel) ast env st = Done r st2 ->
     exists st1,
       eval host fuel rhs env st = Done r st1 /\
       ((exists owner b,
           lookup_chain st1 env (token var) = Found owner b /\
           assign env (token var) r st1 = Done tt st2) \/
        (lookup_chain st1 env (token var) = Missing /\
         initialize env (token var) r (String.eqb (token m) "mut") st1
           = Done tt st2))) /\
  (forall val st1,
     eval host fuel rhs env st = Done val st1 ->
     (forall owner b,
        lookup_chain st1 env (token var) = Found owner b ->
        sym_mut b = true ->
        exists st2, eval host (S fuel) ast env st = Done val st2) /\
     (lookup_chain st1 env (token var) = Missing ->
      is_Some (envs st1 !! env) ->
      exists st2, eval host (S fuel) ast env st = Done val st2)).
Proof.
  intros Htag Hnodes.
  assert (Heval : forall val st1, eval host fuel rhs env st = Done val st1 ->
    eval host (S fuel) ast env st =
    (bound <- has env (token var) ;;
     (if (bound : bool) then assign env (token var) val
      else initialize env (token var) val (String.eqb (token m) "mut")) ;;
     ret val) st1).
  { intros val st1 Hrhs. rewrite eval_unfold. unfold eval_node. rewrite Htag.
    by apply eval_assignment_after with rhs rest. }
  split.
  - intros r st2 Hdone.
    destruct (eval host fuel rhs env st) as [val st1| |] eqn:Hrhs.
    + rewrite (Heval val st1 eq_refl) in Hdone.
      apply bind_inv in Hdone as (bound & st1' & Hhas & Hdone).
      apply bind_inv in Hdone as ([] & st2' & Hbind & Hret).
      injection Hret as <- <-.
      exists st1. split; [done|].
      unfold has in Hhas.
      destruct (lookup_chain st1 env (token var)) as [owner b| |] eqn:Hchain;
        [| |done]; injection Hhas as <- <-.
      * left. by exists owner, b.
      * by right.
    + rewrite eval_unfold in Hdone. unfold eval_node in Hdone.
      rewrite Htag in Hdone. unfold eval_assignment, node_at in Hdone.
      rewrite Hnodes in Hdone. cbn in Hdone.
      by rewrite (bind_fail _ _ _ _ Hrhs) in Hdone.
    + rewrite eval_unfold in Hdone. unfold eval_node in Hdone.
      rewrite Htag in Hdone. unfold eval_assignment, node_at in Hdone.
      rewrite Hnodes in Hdone. cbn in Hdone.
      unfold bind in Hdone. by rewrite Hrhs in Hdone.
  - intros val st1 Hrhs. rewrite (Heval val st1 Hrhs). split.
    + intros owner b Hfound Hmut.
      destruct (assign_mutable _ _ _ val _ _ Hfound Hmut) as (Eo & _ & _ & Hassign).
      eexists. unfold bind, has. by rewrite Hfound, Hassign.
    + intros Hmissing [E HE]. eexists.
      unfold bind, has, initialize, modify_env. by rewrite Hmissing, HE.
Qed.

Lemma assignment_value_witness :
  exists st1,
    eval Sample.bare 1 (Sample.num "1") Sample.root Sample.start
      = Done (VLong 1) st1 /\
    initialize Sample.root "x" (VLong 1) true st1
      = Done tt (Sample.with_x true).
Proof.
  destruct (proj1 (assignment_value Sample.bare 1
    (Sample.assignment "mut" "x" (Sample.num "1")) Sample.root
    (Sample.tok "mut") (Sample.tok "x") (Sample.num "1") []
    Sample.start eq_refl eq_refl) (VLong 1) (Sample.with_x true) eq_refl)
    as (st1 & Hrhs & [(owner & b & Hfound & Hassign)|[Hmissing Hinit]]).
  - exfalso. injection Hrhs as <-. discriminate Hfound.
  - exists st1. split; [exact Hrhs|exact Hinit].
Defined.

(** ** Object literals *)

Lemma emplace_present s v m x :
  m !! s = Some x -> emplace s v m = m.
Proof. intros H. unfold emplace. by rewrite H. Qed.

Lemma emplace_lookup s v m s' :
  emplace s v m !! s' =
  match m !! s' with
  | Some x => Some x
  | None => if decide (s = s') then Some v else None
  end.
Proof.
  unfold emplace. destruct (m !! s) as [x|] eqn:Hs.
  - destruct (m !! s') eqn:Hs'; [done|].
    destruct (decide (s = s')) as [->|]; [congruence|done].
  - destruct (decide (s = s')) as [->|Hne].
    + by rewrite lookup_insert_eq, Hs.
    + rewrite lookup_insert_ne by done. by destruct (m !! s').
Qed.

Lemma emplace_all_cons k v kvs m :
  emplace_all ((k, v) :: kvs) m = emplace_all kvs (emplace k v m).
Proof. reflexivity. Qed.

Lemma emplace_all_kept kvs m s x :
  m !! s = Some x -> emplace_all kvs m !! s = Some x.
Proof.
  revert m. induction kvs as [|[k v] kvs IH]; intros m H; [done|].
  rewrite emplace_all_cons. apply IH. by rewrite emplace_lookup, H.
Qed.

Lemma emplace_all_absent kvs m s :
  s ∉ kvs.*1 -> emplace_all kvs m !! s = m !! s.
Proof.
  revert m. induction kvs as [|[k v] kvs IH]; intros m H; [done|].
  rewrite fmap_cons, not_elem_of_cons in H. destruct H as [Hne H].
  rewrite emplace_all_cons, IH by done. rewrite emplace_lookup.
  destruct (m !! s); [done|]. by rewrite decide_False.
Qed.

(** The first pair with a name decides the value of the name. *)
Lemma emplace_all_first kvs m i s v :
  m !! s = None ->
  kvs !! i = Some (s, v) ->
  (forall j, (j < i)%nat -> kvs.*1 !! j <> Some s) ->
  emplace_all kvs m !! s = Some v.
Proof.
  revert m i. induction kvs as [|[k w] kvs IH]; intros m i Hm Hi Hfirst; [done|].
  rewrite emplace_all_cons. destruct i as [|i]; cbn in Hi.
  - injection Hi as -> ->. apply emplace_all_kept.
    by rewrite emplace_lookup, Hm, decide_True.
  - apply (IH _ i); [|done|].
    + rewrite emplace_lookup, Hm. rewrite decide_False; [done|].
      intros ->. by apply (Hfirst 0%nat); [lia|].
    + intros j Hj. apply (Hfirst (S j)). lia.
Qed.

Lemma pair_of_nodes prop s e :
  pair_of prop = Some (s, e) ->
  exists nm rest, nodes prop = nm :: e :: rest /\ token nm = s.
Proof.
  unfold pair_of. destruct (nodes prop) as [|nm [|e' rest]]; try done.
  intros [= <- <-]. by exists nm, rest.
Qed.

Lemma object_loop_evals ev env props pairs st vs st1 obj :
  Forall2 (fun prop p => pair_of prop = Some p) props pairs ->
  evals ev env pairs.*2 st vs st1 ->
  object_loop ev props env obj st =
  Done (emplace_all (zip pairs.*1 vs) obj) st1.
Proof.
  intros Hprops. revert st vs obj.
  induction Hprops as [|prop [s e] props pairs Hpair Hprops IH];
    intros st vs obj Hev; cbn in Hev.
  - by inversion Hev.
  - inversion Hev as [|? ? ? v st' vs' ? He Hes]; subst.
    destruct (pair_of_nodes _ _ _ Hpair) as (nm & rest & Hnodes & <-).
    cbn [object_loop]. unfold node_at. rewrite Hnodes. cbn.
    rewrite (bind_done _ _ _ _ _ He). by apply IH.
Qed.

(** C1, as the code has it.  The pairs of an object literal are
    evaluated in source order and the result is an object no value had
    before; a name that several pairs give keeps the value of the first
    of them, and the literal has no other property. *)
Theorem object_literal_first_wins host fuel ast env pairs st vs st1 :
  tag ast = OBJECT ->
  Forall2 (fun prop p => pair_of prop = Some p) (nodes ast) pairs ->
  evals (eval host fuel) env pairs.*2 st vs st1 ->
  exists o m,
    eval host (S fuel) ast env st =
      Done (VObject o) (set_objects (insert o m) st1) /\
    (o ∉ dom (objects st1)) /\
    (forall i s v,
       pairs.*1 !! i = Some s ->
       vs !! i = Some v ->
       (forall j, (j < i)%nat -> pairs.*1 !! j <> Some s) ->
       m !! s = Some v) /\
    (forall s, s ∉ pairs.*1 -> m !! s = None).
Proof.
  intros Htag Hprops Hev.
  exists (fresh (dom (objects st1))), (emplace_all (zip pairs.*1 vs) ∅).
  split; [|split; [apply is_fresh|split]].
  - rewrite eval_unfold. unfold eval_node. rewrite Htag. unfold eval_object.
    by rewrite (bind_done _ _ _ _ _ (object_loop_evals _ _ _ _ _ _ _ ∅ Hprops Hev)).
  - intros i s v Hs Hv Hfirst. apply (emplace_all_first _ _ i); [done| |].
    + rewrite lookup_zip_with, Hs. cbn. by rewrite Hv.
    + intros j Hj Hzip. apply (Hfirst j Hj).
      rewrite list_lookup_fmap in Hzip.
      destruct (zip pairs.*1 vs !! j) as [[k w]|] eqn:Hjk; [|done].
      cbn in Hzip. injection Hzip as ->.
      apply lookup_zip_with_Some in Hjk as (k & w' & [= <- <-] & Hk & _).
      done.
  - intros s Hs. rewrite emplace_all_absent; [done|].
    intros Hin. apply Hs. apply list_elem_of_fmap in Hin as ([k w] & -> & Hin).
    apply list_elem_of_lookup in Hin as [j Hj].
    apply lookup_zip_with_Some in Hj as (k' & w' & [= <- <-] & Hk & _).
    apply list_elem_of_lookup. by exists j.
Qed.

Lemma object_literal_first_wins_witness :
  exists o m,
    eval Sample.bare 2 Sample.twice_a Sample.root Sample.start =
      Done (VObject o) (set_objects (insert o m) Sample.start) /\
    m !! "a"%string = Some (VLong 1).
Proof.
  destruct (object_literal_first_wins Sample.bare 1 Sample.twice_a Sample.root
    [("a"%string, Sample.num "1"); ("a"%string, Sample.num "2")]
    Sample.start [VLong 1; VLong 2] Sample.start)
    as (o & m & Heval & _ & Hfirst & _).
  - reflexivity.
  - repeat constructor.
  - cbn. eapply evals_cons; [reflexivity|].
    eapply evals_cons; [reflexivity|apply evals_nil].
  - exists o, m. split; [exact Heval|].
    apply (Hfirst 0%nat); [reflexivity|reflexivity|]. intros j Hj. lia.
Defined.

(** C1, as the specification has it, fails on the literal that gives [a]
    twice, as 1 and then 2: the last pair is evaluated, to 2, and the
    object has 1 for [a]. *)
Lemma object_literal_last_loses :
  eval Sample.bare 2 Sample.twice_a Sample.root Sample.start =
    Done (VObject 0)
      (set_objects (insert 0%nat {[ "a"%string := VLong 1 ]}) Sample.start) /\
  eval Sample.bare 1 (Sample.num "2") Sample.root Sample.start =
    Done (VLong 2) Sample.start /\
  ({[ "a"%string := VLong 1 ]} : gmap string Value) !! "a"%string
    <> Some (VLong 2).
Proof. split; [reflexivity|]. split; [reflexivity|]. discriminate. Qed.

(** * Further properties of the evaluator *)

(** ** Statement sequences *)


Lemma statements_loop_fails ev env n ns pre x post st vs st1 e :
  n :: ns = pre ++ x :: post ->
  evals ev env pre st vs st1 ->
  ev x env st1 = Fail e ->
  statements_loop ev n ns env st = Fail e.
Proof.
  intros Hsplit Hev Hx. revert n ns Hsplit.
  induction Hev as [st|y ys st v st1 vs st2 Hy Hys IH]; intros n ns Hsplit.
  - injection Hsplit as -> ->. destruct post; cbn [statements_loop]; [done|].
    by rewrite (bind_fail _ _ _ _ Hx).
  - injection Hsplit as -> ->.
    destruct ys as [|y' ys']; cbn [app statements_loop];
      rewrite (bind_done _ _ _ _ _ Hy); exact (IH Hx _ _ eq_refl).
Qed.



(** X2.  A statement sequence stops at the first child that fails: it
    fails in the same way, whatever the children after it are. *)
Theorem statements_failure host fuel ast env pre x post st vs st1 e :
  tag ast = STATEMENTS ->
  is_token ast = false ->
  nodes ast = pre ++ x :: post ->
  evals (eval host fuel) env pre st vs st1 ->
  eval host fuel x env st1 = Fail e ->
  eval host (S fuel) ast env st = Fail e.
Proof.
  intros Htag Htoken Hnodes Hev Hx.
  rewrite eval_unfold. unfold eval_node, eval_statements.
  rewrite Htag, Htoken, Hnodes.
  destruct (pre ++ x :: post) as [|n ns] eqn:Hsplit.
  - by destruct pre.
  - by apply statements_loop_fails with pre x post vs st1.
Qed.

Lemma statements_failure_witness :
  eval Sample.bare 2
    (Sample.statements [Sample.num "1"; Sample.ident "nowhere"; Sample.num "3"])
    Sample.root Sample.start
  = Fail UnboundName.
Proof.
  apply (statements_failure Sample.bare 1
    (Sample.statements [Sample.num "1"; Sample.ident "nowhere"; Sample.num "3"])
    Sample.root [Sample.num "1"]
    (Sample.ident "nowhere") [Sample.num "3"] Sample.start [VLong 1]
    Sample.start UnboundName eq_refl eq_refl eq_refl).
  - eapply evals_cons; [reflexivity|apply evals_nil].
  - reflexivity.
Defined.

(** X3.  A STATEMENTS node that is a token is handed back to [eval],
    which hands it to [eval_statements] again: the evaluation does not
    end, whatever depth it is given. *)
Theorem statements_token_diverges host fuel ast env st :
  tag ast = STATEMENTS ->
  is_token ast = true ->
  eval host fuel ast env st = OutOfFuel.
Proof.
  intros Htag Htoken. induction fuel as [|fuel IH]; [done|].
  rewrite eval_unfold. unfold eval_node, eval_statements.
  by rewrite Htag, Htoken.
Qed.

Lemma statements_token_diverges_witness :
  eval Sample.bare 5 (Sample.leaf STATEMENTS "x") Sample.root Sample.start
  = OutOfFuel.
Proof.
  apply (statements_token_diverges Sample.bare 5 (Sample.leaf STATEMENTS "x")
           Sample.root Sample.start); reflexivity.
Defined.

(** ** Loops *)

(** X4.  A while loop that ends has the unit value. *)
Theorem while_value host fuel ast env st v st1 :
  tag ast = WHILE ->
  eval host fuel ast env st = Done v st1 ->
  v = VUnit.
Proof.
  intros Htag. revert st. induction fuel as [|fuel IH]; intros st; [done|].
  rewrite eval_unfold. unfold eval_node. rewrite Htag. unfold eval_while.
  intros H. apply bind_inv in H as (c & s1 & _ & H).
  apply bind_inv in H as (cond & s2 & _ & H).
  apply bind_inv in H as (b & s3 & _ & H).
  destruct b.
  - apply bind_inv in H as (body & s4 & _ & H).
    apply bind_inv in H as (w & s5 & _ & H). by apply IH with s5.
  - by injection H as <- _.
Qed.

Lemma while_value_witness :
  eval Sample.bare 2
    (Sample.node WHILE [Sample.boolean "false"; Sample.num "1"])
    Sample.root Sample.start = Done VUnit Sample.start /\
  VUnit = VUnit.
Proof.
  split; [reflexivity|].
  apply (while_value Sample.bare 2
    (Sample.node WHILE [Sample.boolean "false"; Sample.num "1"])
    Sample.root Sample.start VUnit Sample.start); reflexivity.
Defined.

(** X5.  One turn of a while loop.  A false condition ends the loop with
    the unit value and the body is not looked at; a true condition
    evaluates the body, drops its value and starts the loop again in the
    store the body left; a condition that is not a boolean fails with
    [TypeMismatch]. *)
Theorem while_turn host fuel ast env c st v st1 :
  tag ast = WHILE ->
  nodes ast !! 0%nat = Some c ->
  eval host fuel c env st = Done v st1 ->
  (v = VBool false -> eval host (S fuel) ast env st = Done VUnit st1) /\
  (v = VBool true ->
   forall body w st2,
     nodes ast !! 1%nat = Some body ->
     eval host fuel body env st1 = Done w st2 ->
     eval host (S fuel) ast env st = eval host fuel ast env st2) /\
  ((forall b, v <> VBool b) ->
   eval host (S fuel) ast env st = Fail TypeMismatch).
Proof.
  intros Htag Hc Hcond.
  assert (Heval : eval host (S fuel) ast env st =
    (b <- to_bool v ;;
     if (b : bool) then
       body <- node_at ast 1 ;;
       eval host fuel body env ;;
       eval host fuel ast env
     else ret VUnit) st1).
  { rewrite eval_unfold. unfold eval_node. rewrite Htag.
    unfold eval_while, node_at at 1. rewrite Hc, bind_ret.
    by rewrite (bind_done _ _ _ _ _ Hcond). }
  rewrite Heval. repeat split.
  - by intros ->.
  - intros -> body w st2 Hbody Hw. cbn [to_bool]. rewrite bind_ret.
    unfold node_at. rewrite Hbody, bind_ret.
    by rewrite (bind_done _ _ _ _ _ Hw).
  - intros Hv. destruct v; try done. by destruct (Hv b).
Qed.

Lemma while_turn_witness :
  eval Sample.bare 2
    (Sample.node WHILE [Sample.boolean "false"; Sample.ident "nowhere"])
    Sample.root Sample.start
  = Done VUnit Sample.start.
Proof.
  refine (proj1 (while_turn Sample.bare 1
    (Sample.node WHILE [Sample.boolean "false"; Sample.ident "nowhere"])
    Sample.root (Sample.boolean "false") Sample.start (VBool false)
    Sample.start eq_refl eq_refl eq_refl) eq_refl).
Defined.

(** ** Conditionals *)

Lemma if_loop_skips ev env pairs rest st st1 :
  yields_all ev env false pairs.*1 st st1 ->
  if_loop ev (branches pairs ++ rest) env st = if_loop ev rest env st1.
Proof.
  revert st. induction pairs as [|[c t] pairs IH]; intros st Hconds; cbn in Hconds.
  - by inversion Hconds.
  - inversion Hconds as [|? ? ? st' ? Hc Hrest]; subst.
    cbn [branches flat_map app fst snd if_loop].
    rewrite (bind_done _ _ _ _ _ Hc). cbn [to_bool]. rewrite bind_ret.
    by apply IH.
Qed.

(** X6.  An IF node is read as (condition, consequence) pairs.  After the
    conditions that are false, whose consequences are left alone: with
    nothing left the value is unit; a single node left is the else branch
    and is evaluated; a true condition gives its consequence and what
    follows is left alone; a condition that is not a boolean fails with
    [TypeMismatch]. *)
Theorem if_chain host fuel ast env pairs rest st st1 :
  tag ast = IF ->
  nodes ast = branches pairs ++ rest ->
  yields_all (eval host fuel) env false pairs.*1 st st1 ->
  (rest = [] -> eval host (S fuel) ast env st = Done VUnit st1) /\
  (forall e, rest = [e] ->
     eval host (S fuel) ast env st = eval host fuel e env st1) /\
  (forall c t more v st2,
     rest = c :: t :: more ->
     eval host fuel c env st1 = Done v st2 ->
     (v = VBool true ->
        eval host (S fuel) ast env st = eval host fuel t env st2) /\
     ((forall b, v <> VBool b) ->
        eval host (S fuel) ast env st = Fail TypeMismatch)).
Proof.
  intros Htag Hnodes Hconds.
  assert (Heval : eval host (S fuel) ast env st =
                  if_loop (eval host fuel) rest env st1).
  { rewrite eval_unfold. unfold eval_node, eval_if. rewrite Htag, Hnodes.
    by apply if_loop_skips. }
  rewrite Heval. repeat split.
  - by intros ->.
  - by intros e ->.
  - intros ->. subst rest. cbn [if_loop].
    rewrite (bind_done _ _ _ _ _ H0). cbn [to_bool]. by rewrite bind_ret.
  - intros Hv. subst rest. cbn [if_loop].
    rewrite (bind_done _ _ _ _ _ H0). destruct v; try done. by destruct (Hv b).
Qed.

Lemma if_chain_witness :
  eval Sample.bare 2 Sample.if_chain Sample.root Sample.start
  = eval Sample.bare 1 (Sample.num "2") Sample.root Sample.start.
Proof.
  refine (proj1 (proj2 (proj2 (if_chain Sample.bare 1 Sample.if_chain
    Sample.root [(Sample.boolean "false", Sample.num "1")]
    [Sample.boolean "true"; Sample.num "2"; Sample.num "3"]
    Sample.start Sample.start eq_refl eq_refl _))
    (Sample.boolean "true") (Sample.num "2") [Sample.num "3"]
    (VBool true) Sample.start eq_refl eq_refl) eq_refl).
  eapply yields_cons; [reflexivity|apply yields_nil].
Defined.

(** ** Function literals and calls of closures *)

Lemma parameters_of ns params st :
  Forall2 (fun n p => parameter_of n = Some p) ns params ->
  parameters ns st = Done params st.
Proof.
  induction 1 as [|n p ns params Hp Hps IH]; [done|].
  unfold parameter_of in Hp.
  destruct (nodes n) as [|m [|nm rest]] eqn:Hn; try done.
  injection Hp as <-. cbn [parameters]. unfold node_at. rewrite Hn. cbn.
  by rewrite (bind_done _ _ _ _ _ IH).
Qed.

(** X7.  A function literal gives a closure over the environment it is
    evaluated in, with the parameters of its parameter list in order,
    each mutable exactly when its qualifier is [mut].  The store stays as
    it is and the body is not evaluated: one level of depth is
    enough. *)
Theorem function_literal host fuel ast env plist body rest params st :
  tag ast = FUNCTION ->
  nodes ast = plist :: body :: rest ->
  Forall2 (fun n p => parameter_of n = Some p) (nodes plist) params ->
  eval host (S fuel) ast env st = Done (VFunction (Closure params body env)) st.
Proof.
  intros Htag Hnodes Hparams.
  rewrite eval_unfold. unfold eval_node, eval_function. rewrite Htag.
  unfold node_at. rewrite Hnodes. cbn.
  by rewrite (bind_done _ _ _ _ _ (parameters_of _ _ st Hparams)).
Qed.

Lemma function_literal_witness :
  eval Sample.bare 1
    (Sample.function [Sample.parameter "mut" "x"] (Sample.ident "x"))
    Sample.root Sample.start
  = Done (VFunction (Closure [{| name := "x"; mut := true |}]
                       (Sample.ident "x") Sample.root)) Sample.start.
Proof.
  apply (function_literal Sample.bare 0
    (Sample.function [Sample.parameter "mut" "x"] (Sample.ident "x"))
    Sample.root (Sample.node (OTHER "PARAMETERS") [Sample.parameter "mut" "x"])
    (Sample.ident "x") []); [reflexivity|reflexivity|].
  repeat constructor.
Defined.

Lemma call_frame_shape ast val params vs :
  outers (call_frame ast val params vs) = [] /\
  object (call_frame ast val params vs) = None.
Proof.
  unfold call_frame. cbn.
  by destruct (with_parameters_shape params vs
                 (env_initialize "self" val false empty_env)) as [-> ->].
Qed.

Lemma call_frame_other ast val params vs s :
  s <> "self"%string -> s <> "__LINE__"%string -> s <> "__COLUMN__"%string ->
  (forall p, p ∈ params -> name p <> s) ->
  dic (call_frame ast val params vs) !! s = None.
Proof.
  intros Hself Hline Hcol Hparams. unfold call_frame. cbn.
  rewrite !lookup_insert_ne by done.
  rewrite with_parameters_other by done. cbn.
  by rewrite lookup_insert_ne.
Qed.

(** The call of a closure, up to the evaluation of its body. *)
Lemma call_closure host ev ast env params body denv n st vs st1 :
  original_tag n = ARGUMENTS ->
  (length params <= length (nodes n))%nat ->
  evals ev env (take (length params) (nodes n)) st vs st1 ->
  call_step host ev ast env (VFunction (Closure params body denv)) n st =
  ev body (fresh (dom (envs st1)))
    (set_envs (insert (fresh (dom (envs st1)))
       (env_append_outer denv
          (call_frame ast (VFunction (Closure params body denv)) params vs)))
       st1).
Proof.
  intros Htag Hlen Hev. unfold call_step. rewrite Htag.
  rewrite (call_arguments_evals _ _ _ _ _ _ _ vs st1) by done.
  cbn [invoke fn_params]. unfold append_outer, modify_env, bind. cbn.
  rewrite lookup_insert_eq. unfold set_envs. cbn. by rewrite insert_insert_eq.
Qed.

(** X8.  Calling a closure evaluates its body in an environment nothing
    referred to before, whose bindings are those of the call ([self], the
    parameters, the position) and whose single outer scope is the
    environment the function literal was evaluated in, not the
    caller's.  Nothing else in the store changes before the body runs. *)
Theorem closure_call host ev ast env params body denv n st vs st1 :
  original_tag n = ARGUMENTS ->
  (length params <= length (nodes n))%nat ->
  evals ev env (take (length params) (nodes n)) st vs st1 ->
  exists callEnv E st2,
    (callEnv ∉ dom (envs st1)) /\
    call_step host ev ast env (VFunction (Closure params body denv)) n st =
      ev body callEnv st2 /\
    envs st2 !! callEnv = Some E /\
    outers E = [denv] /\
    object E = None /\
    dic E = dic (call_frame ast (VFunction (Closure params body denv)) params vs) /\
    (forall e, e <> callEnv -> envs st2 !! e = envs st1 !! e) /\
    objects st2 = objects st1 /\
    arrays st2 = arrays st1.
Proof.
  intros Htag Hlen Hev.
  eexists _, _, _. split; [apply is_fresh|].
  split; [by apply call_closure|]. cbn.
  split; [apply lookup_insert_eq|].
  unfold env_append_outer. cbn [outers object dic].
  destruct (call_frame_shape ast (VFunction (Closure params body denv)) params vs)
    as [-> ->].
  repeat split. intros e He. by rewrite lookup_insert_ne.
Qed.

Lemma closure_call_witness :
  exists callEnv E st2,
    call_step Sample.bare (eval Sample.bare 1)
      (Sample.call (Sample.ident "f") []) Sample.root
      (VFunction Sample.identity) (Sample.arguments [Sample.num "7"])
      Sample.start
    = eval Sample.bare 1 (Sample.ident "x") callEnv st2 /\
    envs st2 !! callEnv = Some E /\
    outers E = [Sample.root].
Proof.
  destruct (closure_call Sample.bare (eval Sample.bare 1)
    (Sample.call (Sample.ident "f") []) Sample.root
    [{| name := "x"; mut := false |}] (Sample.ident "x") Sample.root
    (Sample.arguments [Sample.num "7"]) Sample.start [VLong 7] Sample.start)
    as (callEnv & E & st2 & _ & Hstep & HE & Houters & _).
  - reflexivity.
  - cbn. lia.
  - eapply evals_cons; [reflexivity|apply evals_nil].
  - exists callEnv, E, st2. split; [exact Hstep|]. split; [exact HE|exact Houters].
Defined.

Lemma first_found_agree find find' os :
  (forall o, o ∈ os -> find o = find' o) ->
  first_found find os = first_found find' os.
Proof.
  induction os as [|o os IH]; intros H; cbn; [done|].
  rewrite (H o) by left. rewrite IH; [done|].
  intros o' Ho'. apply H. by right.
Qed.

(** An environment nothing refers to does not change what the others
    find. *)
Lemma find_owner_fresh depth st ce E e s :
  closed_outers st ->
  envs st !! ce = None ->
  is_Some (envs st !! e) ->
  find_owner depth (set_envs (insert ce E) st) e s = find_owner depth st e s.
Proof.
  intros Hclosed Hce. revert e. induction depth as [|d IH]; intros e He; [done|].
  cbn. destruct He as [Ee HEe].
  rewrite lookup_insert_ne by congruence. rewrite HEe.
  destruct (dic Ee !! s); [done|].
  apply first_found_agree. intros o Ho. apply IH.
  specialize (Hclosed e Ee HEe). cbn in Hclosed.
  by apply (proj1 (Forall_forall _ _) Hclosed).
Qed.

Lemma lookup_chain_through st e E outer s :
  envs st !! e = Some E ->
  dic E !! s = None ->
  outers E = [outer] ->
  lookup_chain st e s = find_owner (size (envs st)) st outer s.
Proof.
  intros HE Hs Houter. unfold lookup_chain. cbn [find_owner].
  rewrite HE, Hs, Houter. cbn [first_found].
  by destruct (find_owner (size (envs st)) st outer s).
Qed.

Lemma at_body_outers f E body denv :
  closure_of f = Some (body, denv) ->
  outers (at_body f E) = outers E ++ [denv].
Proof.
  revert E. induction f as [ps b d|ps val pf IH|ps code]; intros E Hf;
    cbn in Hf; [by injection Hf as -> ->| |done].
  cbn [at_body]. rewrite (IH _ Hf). by destruct val.
Qed.

Lemma run_body_closure host ev f callEnv body denv :
  closure_of f = Some (body, denv) ->
  run_body host ev f callEnv = ev body callEnv.
Proof.
  induction f as [ps b d|ps val pf IH|ps code]; intros Hf; cbn in Hf;
    [by injection Hf as -> ->|by apply IH|done].
Qed.

(** X9.  Inside the body of a function that comes from a function
    literal, called as it is or as a property through DOT, a name that
    is not [self], a parameter or the position of the call, and not
    [this] when the call goes through DOT, is looked up in the environment
    the function literal was evaluated in, with the result it has there:
    the environment of the caller plays no part. *)
Theorem closure_free_variable host ev ast env f body denv n st vs st1 s :
  original_tag n = ARGUMENTS ->
  (length (fn_params f) <= length (nodes n))%nat ->
  evals ev env (take (length (fn_params f)) (nodes n)) st vs st1 ->
  closure_of f = Some (body, denv) ->
  closed_outers st1 ->
  is_Some (envs st1 !! denv) ->
  s <> "self"%string -> s <> "__LINE__"%string -> s <> "__COLUMN__"%string ->
  (forall p, p ∈ fn_params f -> name p <> s) ->
  (is_method f = true -> s <> "this"%string) ->
  exists callEnv st2,
    call_step host ev ast env (VFunction f) n st = ev body callEnv st2 /\
    lookup_chain st2 callEnv s = lookup_chain st1 denv s.
Proof.
  intros Htag Hlen Hev Hf Hclosed Hdenv Hself Hline Hcol Hparams Hthis.
  set (callEnv := fresh (dom (envs st1))).
  set (E0 := call_frame ast (VFunction f) (fn_params f) vs).
  exists callEnv, (set_envs (insert callEnv (at_body f E0)) st1). split.
  { unfold call_step. rewrite Htag.
    rewrite (call_arguments_evals _ _ _ _ _ _ _ vs st1) by done.
    fold callEnv. fold E0.
    rewrite (invoke_at_body _ _ _ _ _ E0) by apply lookup_insert_eq.
    rewrite set_envs_insert_insert.
    by rewrite (run_body_closure _ _ _ _ body denv). }
  assert (Hfresh : envs st1 !! callEnv = None).
  { apply not_elem_of_dom, is_fresh. }
  rewrite (lookup_chain_through _ _ (at_body f E0) denv).
  - unfold set_envs at 1. cbn [envs].
    rewrite map_size_insert_None by done.
    by rewrite (find_owner_fresh (S (size (envs st1))) st1).
  - apply lookup_insert_eq.
  - rewrite at_body_lookup by done. by apply call_frame_other.
  - rewrite (at_body_outers _ _ body denv) by done. unfold E0.
    by destruct (call_frame_shape ast (VFunction f) (fn_params f) vs) as [-> _].
Qed.

Lemma closure_free_variable_witness :
  exists callEnv st2,
    call_step Sample.bare (eval Sample.bare 1)
      (Sample.call (Sample.ident "f") []) Sample.root
      (VFunction (Method [] (VLong 0) (Closure [] (Sample.ident "x") Sample.root)))
      (Sample.arguments []) (Sample.with_x true)
    = eval Sample.bare 1 (Sample.ident "x") callEnv st2 /\
    lookup_chain st2 callEnv "x" = Found Sample.root (symbol (VLong 1) true).
Proof.
  destruct (closure_free_variable Sample.bare (eval Sample.bare 1)
    (Sample.call (Sample.ident "f") []) Sample.root
    (Method [] (VLong 0) (Closure [] (Sample.ident "x") Sample.root))
    (Sample.ident "x") Sample.root (Sample.arguments []) (Sample.with_x true) []
    (Sample.with_x true) "x") as (callEnv & st2 & Hstep & Hlookup).
  - reflexivity.
  - cbn. lia.
  - apply evals_nil.
  - reflexivity.
  - apply map_Forall_singleton. apply Forall_nil_2.
  - eexists. reflexivity.
  - discriminate.
  - discriminate.
  - discriminate.
  - intros p Hp. inversion Hp.
  - discriminate.
  - exists callEnv, st2. split; [exact Hstep|exact Hlookup].
Defined.

(** ** Method calls *)

Lemma call_dot_function host val n st pf st1 :
  get_property host val (token n) st = Done (VFunction pf) st1 ->
  call_dot host val n st = Done (VFunction (Method (fn_params pf) val pf)) st1.
Proof. intros H. unfold call_dot. by rewrite (bind_done _ _ _ _ _ H). Qed.

(** X10.  A property that is a closure, taken with DOT and called at
    once: the body runs in a new environment in which [this] is the
    receiver, immutable, even when a parameter is called [this]; the
    receiver is attached when it is an object; the single outer scope is
    the environment of the function literal; and [self] is not the
    property but the function the DOT step made of it. *)
Theorem method_call host ev ast env val d n rest st params body denv st0 vs st1 :
  original_tag d = DOT ->
  original_tag n = ARGUMENTS ->
  get_property host val (token d) st =
    Done (VFunction (Closure params body denv)) st0 ->
  (length params <= length (nodes n))%nat ->
  evals ev env (take (length params) (nodes n)) st0 vs st1 ->
  exists callEnv E st2,
    (callEnv ∉ dom (envs st1)) /\
    call_loop host ev ast env val (d :: n :: rest) st =
      (v <- ev body callEnv ;; call_loop host ev ast env v rest) st2 /\
    envs st2 !! callEnv = Some E /\
    dic E !! "this" = Some (symbol val false) /\
    object E = match val with VObject o => Some o | _ => None end /\
    outers E = [denv] /\
    ((forall p, p ∈ params -> name p <> "self") ->
       dic E !! "self" =
         Some (symbol (VFunction (Method params val (Closure params body denv)))
                 false)).
Proof.
  intros Hdot Hargs Hprop Hlen Hev.
  set (f := Method params val (Closure params body denv)).
  set (ce := fresh (dom (envs st1))).
  set (frame := call_frame ast (VFunction f) params vs).
  set (E := env_append_outer denv
              match val with
              | VObject o => env_set_object o (env_initialize "this" val false frame)
              | _ => env_initialize "this" val false frame
              end).
  exists ce, E, (set_envs (insert ce E) st1).
  split; [apply is_fresh|]. split.
  { cbn [call_loop].
    assert (Hd : call_step host ev ast env val d st = Done (VFunction f) st0).
    { unfold call_step. rewrite Hdot.
      exact (call_dot_function _ _ _ _ _ _ Hprop). }
    rewrite (bind_done _ _ _ _ _ Hd).
    assert (Hn : call_step host ev ast env (VFunction f) n st0 =
                 ev body ce (set_envs (insert ce E) st1)).
    { unfold call_step. rewrite Hargs.
      rewrite (call_arguments_evals _ _ _ _ _ _ _ vs st1) by done.
      fold ce. fold frame. unfold f.
      rewrite (invoke_method _ _ _ _ _ _ _ frame) by apply lookup_insert_eq.
      cbn [invoke]. unfold append_outer, modify_env, bind. cbn [set_envs envs].
      rewrite lookup_insert_eq. unfold set_envs. cbn [envs objects arrays].
      by rewrite !insert_insert_eq. }
    unfold bind at 1. rewrite Hn. reflexivity. }
  split; [apply lookup_insert_eq|].
  destruct (call_frame_shape ast (VFunction f) params vs) as [Houters Hobject].
  fold frame in Houters, Hobject.
  assert (Hdic : dic E = <["this"%string := symbol val false]> (dic frame)).
  { unfold E. by destruct val. }
  assert (HobjE : object E = match val with
                             | VObject o => Some o
                             | _ => object frame
                             end).
  { unfold E. by destruct val. }
  assert (HoutE : outers E = outers frame ++ [denv]).
  { unfold E. by destruct val. }
  rewrite Hdic, HobjE, HoutE, Houters, Hobject.
  split; [apply lookup_insert_eq|]. split; [by destruct val|]. split; [done|].
  intros Hself. rewrite lookup_insert_ne by done.
  unfold frame, call_frame. cbn [dic env_initialize].
  rewrite !lookup_insert_ne by done.
  rewrite with_parameters_other by done. apply lookup_insert_eq.
Qed.

Lemma method_call_witness :
  exists callEnv E st2,
    call_loop Sample.bare (eval Sample.bare 1)
      (Sample.call (Sample.ident "o") []) Sample.root (VObject 0)
      [Sample.dot "m"; Sample.arguments [Sample.num "7"]] Sample.with_object
    = (v <- eval Sample.bare 1 (Sample.ident "x") callEnv ;;
       call_loop Sample.bare (eval Sample.bare 1)
         (Sample.call (Sample.ident "o") []) Sample.root v []) st2 /\
    envs st2 !! callEnv = Some E /\
    dic E !! "this" = Some (symbol (VObject 0) false) /\
    object E = Some 0%nat.
Proof.
  destruct (method_call Sample.bare (eval Sample.bare 1)
    (Sample.call (Sample.ident "o") []) Sample.root (VObject 0)
    (Sample.dot "m") (Sample.arguments [Sample.num "7"]) []
    Sample.with_object [{| name := "x"; mut := false |}] (Sample.ident "x")
    Sample.root Sample.with_object [VLong 7] Sample.with_object)
    as (callEnv & E & st2 & _ & Hloop & HE & Hthis & Hobject & _).
  - reflexivity.
  - reflexivity.
  - reflexivity.
  - cbn. lia.
  - eapply evals_cons; [reflexivity|apply evals_nil].
  - exists callEnv, E, st2. repeat split; assumption.
Defined.

(** ** Array literals *)

Lemma array_loop_evals ev env ns st vs st1 arr :
  evals ev env ns st vs st1 ->
  array_loop ev ns env arr st = Done (arr ++ vs) st1.
Proof.
  intros Hev. revert arr.
  induction Hev as [st|e es st v st1 vs st2 He Hes IH]; intros arr; cbn.
  - by rewrite app_nil_r.
  - rewrite (bind_done _ _ _ _ _ He), IH. by rewrite <- app_assoc.
Qed.

Lemma eval_array_evals host fuel ast env st vs st1 :
  tag ast = ARRAY ->
  evals (eval host fuel) env (nodes ast) st vs st1 ->
  eval host (S fuel) ast env st =
  Done (VArray (fresh (dom (arrays st1))))
    (set_arrays (insert (fresh (dom (arrays st1))) vs) st1).
Proof.
  intros Htag Hev. rewrite eval_unfold. unfold eval_node. rewrite Htag.
  unfold eval_array.
  by rewrite (bind_done _ _ _ _ _ (array_loop_evals _ _ _ _ _ _ [] Hev)).
Qed.

(** X11.  An array literal evaluates its elements in source order, each
    in the store the one before left, and gives an array no value had
    before: element for element the values, as many as there are
    expressions.  No other array, object or environment changes in the
    making. *)
Theorem array_literal host fuel ast env st vs st1 :
  tag ast = ARRAY ->
  evals (eval host fuel) env (nodes ast) st vs st1 ->
  exists a st2,
    eval host (S fuel) ast env st = Done (VArray a) st2 /\
    (a ∉ dom (arrays st1)) /\
    arrays st2 !! a = Some vs /\
    length vs = length (nodes ast) /\
    (forall a', a' <> a -> arrays st2 !! a' = arrays st1 !! a') /\
    objects st2 = objects st1 /\
    envs st2 = envs st1.
Proof.
  intros Htag Hev. eexists _, _.
  split; [by apply eval_array_evals|].
  split; [apply is_fresh|]. cbn.
  split; [apply lookup_insert_eq|].
  split; [by apply evals_length with (eval host fuel) env st st1|].
  split; [|done]. intros a' Ha'. by apply lookup_insert_ne.
Qed.

Lemma array_literal_witness :
  exists a st2,
    eval Sample.bare 2 (Sample.node ARRAY [Sample.num "5"; Sample.num "6"])
      Sample.root Sample.start = Done (VArray a) st2 /\
    arrays st2 !! a = Some [VLong 5; VLong 6].
Proof.
  destruct (array_literal Sample.bare 1
    (Sample.node ARRAY [Sample.num "5"; Sample.num "6"]) Sample.root
    Sample.start [VLong 5; VLong 6] Sample.start eq_refl)
    as (a & st2 & Heval & _ & Harr & _).
  - eapply evals_cons; [reflexivity|].
    eapply evals_cons; [reflexivity|apply evals_nil].
  - exists a, st2. split; [exact Heval|exact Harr].
Defined.

Lemma call_index_array ev env a n st i st1 vs :
  ev n env st = Done (VLong i) st1 ->
  arrays st1 !! a = Some vs ->
  call_index ev env (VArray a) n st =
  if (0 <=? i) && (i <? Z.of_nat (length vs))
  then match vs !! Z.to_nat i with
       | Some v => Done v st1
       | None => Fail Undefined
       end
  else Done (VArray a) st1.
Proof.
  intros Hn Harr. unfold call_index. cbn [to_array]. rewrite bind_ret.
  rewrite (bind_done _ _ _ _ _ Hn). cbn [to_long]. rewrite bind_ret.
  unfold bind, array_values. rewrite Harr.
  destruct ((0 <=? i) && (i <? Z.of_nat (length vs))); [|done].
  by destruct (vs !! Z.to_nat i).
Qed.

(** X12.  An array literal indexed at once by a number literal: the
    value is the element at that position, counted from zero, when there
    is one; otherwise it is the array itself. *)
Theorem array_literal_index host fuel ast env lit idx st vs st1 i :
  tag ast = CALL ->
  nodes ast = [lit; idx] ->
  tag lit = ARRAY ->
  evals (eval host fuel) env (nodes lit) st vs st1 ->
  original_tag idx = INDEX ->
  tag idx = NUMBER ->
  (forall s, stol (token idx) s = Done i s) ->
  exists a st2,
    arrays st2 !! a = Some vs /\
    (forall v, 0 <= i -> vs !! Z.to_nat i = Some v ->
       eval host (S (S fuel)) ast env st = Done v st2) /\
    (i < 0 \/ Z.of_nat (length vs) <= i ->
       eval host (S (S fuel)) ast env st = Done (VArray a) st2).
Proof.
  intros Htag Hnodes Hlit Hev Horig Hidx Hstol.
  set (a := fresh (dom (arrays st1))).
  set (st2 := set_arrays (insert a vs) st1).
  assert (Harr : arrays st2 !! a = Some vs) by apply lookup_insert_eq.
  assert (Heval : eval host (S (S fuel)) ast env st =
    if (0 <=? i) && (i <? Z.of_nat (length vs))
    then match vs !! Z.to_nat i with
         | Some v => Done v st2
         | None => Fail Undefined
         end
    else Done (VArray a) st2).
  { rewrite eval_unfold. unfold eval_node, eval_call. rewrite Htag, Hnodes.
    rewrite (bind_done _ _ _ _ _ (eval_array_evals _ _ _ _ _ _ _ Hlit Hev)).
    fold a. fold st2. cbn [call_loop]. unfold call_step. rewrite Horig.
    assert (Hi : eval host (S fuel) idx env st2 = Done (VLong i) st2).
    { rewrite eval_unfold. unfold eval_node, eval_number. rewrite Hidx.
      by rewrite (bind_done _ _ _ _ _ (Hstol st2)). }
    rewrite bind_ret_r. by apply call_index_array. }
  exists a, st2. split; [done|]. rewrite Heval. split.
  - intros v Hi Hv.
    assert ((0 <=? i) && (i <? Z.of_nat (length vs)) = true) as ->.
    { apply lookup_lt_Some in Hv. apply andb_true_iff.
      rewrite Z.leb_le, Z.ltb_lt. lia. }
    by rewrite Hv.
  - intros Hout.
    assert ((0 <=? i) && (i <? Z.of_nat (length vs)) = false) as ->; [|done].
    apply andb_false_iff. rewrite Z.leb_gt, Z.ltb_ge. lia.
Qed.

Lemma array_literal_index_witness :
  exists st2,
    eval Sample.bare 3
      (Sample.call (Sample.node ARRAY [Sample.num "5"; Sample.num "6"])
         [Sample.index (Sample.num "1")])
      Sample.root Sample.start = Done (VLong 6) st2.
Proof.
  destruct (array_literal_index Sample.bare 1
    (Sample.call (Sample.node ARRAY [Sample.num "5"; Sample.num "6"])
       [Sample.index (Sample.num "1")])
    Sample.root (Sample.node ARRAY [Sample.num "5"; Sample.num "6"])
    (Sample.index (Sample.num "1")) Sample.start [VLong 5; VLong 6]
    Sample.start 1 eq_refl eq_refl eq_refl)
    as (a & st2 & _ & Hin & _).
  - eapply evals_cons; [reflexivity|].
    eapply evals_cons; [reflexivity|apply evals_nil].
  - reflexivity.
  - reflexivity.
  - intros s. reflexivity.
  - exists st2. apply Hin; [lia|reflexivity].
Defined.

(** ** Object literals and their properties *)






(** ** Chains of binary operators *)

(** Applying an operator does not read or change the store. *)
Lemma bin_op_pure c acc v :
  (exists x, forall s, bin_op c acc v s = Done x s) \/
  (forall s, bin_op c acc v s = Fail Undefined).
Proof.
  unfold bin_op.
  repeat match goal with
         | |- context [if ?b then _ else _] => destruct b
         end; try (left; eexists; intros s; reflexivity); by right.
Qed.

Lemma bin_loop_operations ev env ns st ops st1 acc :
  operations ev env ns st ops st1 ->
  bin_loop ev ns env acc st = apply_all ops acc st1.
Proof.
  intros Hops. revert acc.
  induction Hops as [st|o r rest st v st1 ope st2 ops st3 Hr Ho Hrest IH];
    intros acc; [done|].
  cbn [bin_loop apply_all].
  rewrite (bind_done _ _ _ _ _ Hr). cbn [to_long]. rewrite bind_ret.
  rewrite (bind_done _ _ _ _ _ Ho). cbn [to_string]. rewrite bind_ret.
  destruct (bin_op_pure (first_char ope) acc v) as [[x Hx]|Hfail].
  - rewrite (bind_done _ _ _ _ _ (Hx st2)), (bind_done _ _ _ _ _ (Hx st3)).
    apply IH.
  - by rewrite (bind_fail _ _ _ _ (Hfail st2)), (bind_fail _ _ _ _ (Hfail st3)).
Qed.

(** X14.  A binary expression with several operators is worked off from
    the left, one operator after the other, each on the result so far and
    the next operand; there is no precedence inside the node, and an
    operand is evaluated before the operator in front of it. *)
Theorem binary_chain host fuel ast env n rest st a st1 ops st2 :
  tag ast = ADDITIVE \/ tag ast = MULTIPLICATIVE ->
  nodes ast = n :: rest ->
  eval host fuel n env st = Done (VLong a) st1 ->
  operations (eval host fuel) env rest st1 ops st2 ->
  eval host (S fuel) ast env st =
  (r <- apply_all ops a ;; ret (VLong r)) st2.
Proof.
  intros Htag Hnodes Hn Hops.
  assert (eval host (S fuel) ast env st =
          eval_bin_expression (eval host fuel) ast env st) as ->.
  { rewrite eval_unfold. unfold eval_node. by destruct Htag as [-> | ->]. }
  unfold eval_bin_expression. rewrite Hnodes.
  rewrite (bind_done _ _ _ _ _ Hn). cbn [to_long]. rewrite bind_ret.
  unfold bind. by rewrite (bin_loop_operations _ _ _ _ _ _ a Hops).
Qed.

Lemma binary_chain_witness :
  eval Sample.bare 2
    (Sample.node ADDITIVE
       [Sample.num "10"; Sample.tok "-"; Sample.num "3";
        Sample.tok "-"; Sample.num "2"])
    Sample.root Sample.start
  = Done (VLong 5) Sample.start.
Proof.
  refine (binary_chain Sample.bare 1
    (Sample.node ADDITIVE
       [Sample.num "10"; Sample.tok "-"; Sample.num "3";
        Sample.tok "-"; Sample.num "2"])
    Sample.root (Sample.num "10") _ Sample.start 10 Sample.start
    [("-"%char, 3); ("-"%char, 2)] Sample.start (or_introl eq_refl) eq_refl
    eq_refl _).
  eapply (operations_cons _ _ _ _ _ _ 3 _ "-"); [reflexivity..|].
  eapply (operations_cons _ _ _ _ _ _ 2 _ "-"); [reflexivity..|].
  apply operations_nil.
Defined.

(** X15.  An operator text that begins with none of [+ - * / %], the
    empty text included, changes nothing: the expression has the value of
    its left operand, although the right operand is evaluated and has to
    be a number. *)
Theorem binary_unknown_operator host fuel ast env l o r st a st1 b st2 ope st3 :
  tag ast = ADDITIVE \/ tag ast = MULTIPLICATIVE ->
  nodes ast = [l; o; r] ->
  eval host fuel l env st = Done (VLong a) st1 ->
  eval host fuel r env st1 = Done (VLong b) st2 ->
  eval host fuel o env st2 = Done (VString ope) st3 ->
  first_char ope ∉ ["+"; "-"; "*"; "/"; "%"]%char ->
  eval host (S fuel) ast env st = Done (VLong a) st3.
Proof.
  intros Htag Hnodes Hl Hr Ho Hope.
  rewrite (eval_binary _ _ _ _ _ _ _ _ _ _ _ _ _ _ Htag Hnodes Hl Hr Ho).
  unfold bin_op.
  repeat match goal with
         | |- context [Ascii.eqb ?x ?y] =>
             destruct (Ascii.eqb_spec x y) as [Heq|_];
             [exfalso; apply Hope; rewrite Heq, !elem_of_cons; tauto|]
         end.
  done.
Qed.

Lemma binary_unknown_operator_witness :
  eval Sample.bare 2 (Sample.binary ADDITIVE (Sample.num "4") "" (Sample.num "9"))
    Sample.root Sample.start
  = Done (VLong 4) Sample.start.
Proof.
  apply (binary_unknown_operator Sample.bare 1 _ Sample.root
    (Sample.num "4") (Sample.tok "") (Sample.num "9")
    Sample.start 4 Sample.start 9 Sample.start "" Sample.start);
    try reflexivity.
  - by left.
  - cbn. intros H. repeat (apply elem_of_cons in H as [H|H]; [discriminate|]).
    inversion H.
Defined.

(** X16.  For a divisor other than zero, [LONG_MIN / -1] apart, the
    quotient is rounded towards zero and the remainder has the sign of
    the dividend: together they give the dividend back, and the
    remainder is smaller in size than the divisor. *)
Theorem division_remainder host fuel quotient remainder env l o o' r st a st1 b st2
    ope ope' st3 :
  (tag quotient = ADDITIVE \/ tag quotient = MULTIPLICATIVE) ->
  (tag remainder = ADDITIVE \/ tag remainder = MULTIPLICATIVE) ->
  nodes quotient = [l; o; r] ->
  nodes remainder = [l; o'; r] ->
  eval host fuel l env st = Done (VLong a) st1 ->
  eval host fuel r env st1 = Done (VLong b) st2 ->
  eval host fuel o env st2 = Done (VString ope) st3 ->
  eval host fuel o' env st2 = Done (VString ope') st3 ->
  first_char ope = "/"%char ->
  first_char ope' = "%"%char ->
  b <> 0 ->
  ~ (a = LONG_MIN /\ b = -1) ->
  exists q m,
    eval host (S fuel) quotient env st = Done (VLong q) st3 /\
    eval host (S fuel) remainder env st = Done (VLong m) st3 /\
    a = b * q + m /\
    Z.abs m < Z.abs b /\
    (0 <= a -> 0 <= m) /\ (a <= 0 -> m <= 0).
Proof.
  intros Htq Htm Hnq Hnm Hl Hr Ho Ho' Hope Hope' Hb Hmin.
  exists (Z.quot a b), (Z.rem a b).
  rewrite (eval_binary _ _ _ _ _ _ _ _ _ _ _ _ _ _ Htq Hnq Hl Hr Ho).
  rewrite (eval_binary _ _ _ _ _ _ _ _ _ _ _ _ _ _ Htm Hnm Hl Hr Ho').
  rewrite Hope, Hope'. unfold bin_op. cbn [Ascii.eqb Bool.eqb].
  assert ((b =? 0) || ((a =? LONG_MIN) && (b =? -1)) = false) as ->.
  { apply orb_false_iff. split; [by apply Z.eqb_neq|].
    apply andb_false_iff.
    destruct (Z.eqb_spec a LONG_MIN), (Z.eqb_spec b (-1)); auto.
    by destruct Hmin. }
  split; [done|]. split; [done|].
  split; [apply Z.quot_rem'|].
  split; [by apply Z.rem_bound_abs|].
  split; intros Ha.
  - by apply Z.rem_nonneg.
  - by apply Z.rem_nonpos.
Qed.

Lemma division_remainder_witness :
  exists q m,
    eval Sample.bare 2
      (Sample.binary MULTIPLICATIVE (Sample.num "-7") "/" (Sample.num "2"))
      Sample.root Sample.start = Done (VLong q) Sample.start /\
    eval Sample.bare 2
      (Sample.binary MULTIPLICATIVE (Sample.num "-7") "%" (Sample.num "2"))
      Sample.root Sample.start = Done (VLong m) Sample.start /\
    -7 = 2 * q + m /\ m <= 0.
Proof.
  destruct (division_remainder Sample.bare 1
    (Sample.binary MULTIPLICATIVE (Sample.num "-7") "/" (Sample.num "2"))
    (Sample.binary MULTIPLICATIVE (Sample.num "-7") "%" (Sample.num "2"))
    Sample.root (Sample.num "-7") (Sample.tok "/") (Sample.tok "%")
    (Sample.num "2") Sample.start (-7) Sample.start 2 Sample.start
    "/" "%" Sample.start) as (q & m & Hq & Hm & Hsum & _ & _ & Hsign);
    try reflexivity.
  - by right.
  - by right.
  - discriminate.
  - intros [H _]. discriminate H.
  - exists q, m. split; [exact Hq|]. split; [exact Hm|]. split; [exact Hsum|].
    apply Hsign. lia.
Defined.

(** ** Nodes with a single child, and unary operators *)

(** X17.  A LOGICAL_OR, CONDITION, UNARY_PLUS, UNARY_MINUS or UNARY_NOT
    node with a single child evaluates as that child does: nothing is
    tested and nothing is applied. *)
Theorem single_child host fuel ast env n st :
  tag ast ∈ [LOGICAL_OR; CONDITION; UNARY_PLUS; UNARY_MINUS; UNARY_NOT] ->
  nodes ast = [n] ->
  eval host (S fuel) ast env st = eval host fuel n env st.
Proof.
  intros Htag Hnodes. rewrite eval_unfold. unfold eval_node.
  rewrite !elem_of_cons in Htag.
  destruct Htag as [-> | [-> | [-> | [-> | [-> | H]]]]]; [..|inversion H].
  - unfold eval_logical_or. by rewrite Hnodes.
  - unfold eval_condition. by rewrite Hnodes.
  - unfold eval_unary_plus. by rewrite Hnodes.
  - unfold eval_unary_minus. by rewrite Hnodes.
  - unfold eval_unary_not. by rewrite Hnodes.
Qed.

Lemma single_child_witness :
  eval Sample.bare 2 (Sample.node UNARY_NOT [Sample.num "5"])
    Sample.root Sample.start
  = eval Sample.bare 1 (Sample.num "5") Sample.root Sample.start.
Proof.
  apply (single_child Sample.bare 1 (Sample.node UNARY_NOT [Sample.num "5"])
           Sample.root (Sample.num "5") Sample.start); [|reflexivity].
  cbn. rewrite !elem_of_cons. tauto.
Defined.

(** X18.  A unary node with an operator child and an operand child
    never looks at the operator child.  UNARY_PLUS gives the operand back
    whatever its kind; UNARY_MINUS gives a number negated, as a [long],
    and fails with [TypeMismatch] on anything else; UNARY_NOT gives a
    boolean negated and fails with [TypeMismatch] on anything else. *)
Theorem unary_operators host fuel ast env o n rest st v st1 :
  nodes ast = o :: n :: rest ->
  eval host fuel n env st = Done v st1 ->
  (tag ast = UNARY_PLUS -> eval host (S fuel) ast env st = Done v st1) /\
  (tag ast = UNARY_MINUS ->
     eval host (S fuel) ast env st =
       match v with
       | VLong x => Done (VLong (wrap (- x))) st1
       | _ => Fail TypeMismatch
       end) /\
  (tag ast = UNARY_NOT ->
     eval host (S fuel) ast env st =
       match v with
       | VBool b => Done (VBool (negb b)) st1
       | _ => Fail TypeMismatch
       end).
Proof.
  intros Hnodes Hn. rewrite eval_unfold. unfold eval_node.
  repeat split; intros ->.
  - unfold eval_unary_plus, node_at. rewrite Hnodes. cbn. done.
  - unfold eval_unary_minus, node_at. rewrite Hnodes. cbn.
    rewrite (bind_done _ _ _ _ _ Hn). destruct v; try done.
    cbn. unfold bind, ret. do 2 f_equal. f_equal. lia.
  - unfold eval_unary_not, node_at. rewrite Hnodes. cbn.
    rewrite (bind_done _ _ _ _ _ Hn). by destruct v.
Qed.

Lemma unary_operators_witness :
  eval Sample.bare 2
    (Sample.node UNARY_MINUS [Sample.tok "-"; Sample.num "5"])
    Sample.root Sample.start
  = Done (VLong (wrap (- 5))) Sample.start.
Proof.
  exact (proj1 (proj2 (unary_operators Sample.bare 1
    (Sample.node UNARY_MINUS [Sample.tok "-"; Sample.num "5"]) Sample.root
    (Sample.tok "-") (Sample.num "5") [] Sample.start (VLong 5) Sample.start
    eq_refl eq_refl)) eq_refl).
Defined.

(** ** The postfix chain as a whole *)

(** X19.  A postfix step that does not fit fails before anything is
    evaluated, whatever the evaluator would do: arguments after a value
    that is not a function, and an index after a value that is not an
    array, fail with [TypeMismatch]; a step that is neither ARGUMENTS nor
    INDEX nor DOT fails with the internal-condition error. *)
Theorem postfix_misfit host ev ast env val n st :
  (original_tag n = ARGUMENTS -> (forall f, val <> VFunction f) ->
     call_step host ev ast env val n st = Fail TypeMismatch) /\
  (original_tag n = INDEX -> (forall a, val <> VArray a) ->
     call_step host ev ast env val n st = Fail TypeMismatch) /\
  (original_tag n ∉ [ARGUMENTS; INDEX; DOT] ->
     call_step host ev ast env val n st = Fail InvalidCondition).
Proof.
  unfold call_step. repeat split.
  - intros -> Hval. unfold call_arguments.
    destruct val; try done. by destruct (Hval f).
  - intros -> Hval. unfold call_index.
    destruct val; try done. by destruct (Hval a).
  - intros Htag. rewrite !elem_of_cons in Htag.
    destruct (original_tag n); try done; tauto.
Qed.

(** X20.  The steps of a postfix chain compose: a chain is its first
    part followed, on the value that part gives, by the rest.  A chain
    that fails in its first part fails in the same way. *)
Theorem call_loop_app host ev ast env val pre post st :
  call_loop host ev ast env val (pre ++ post) st =
  (v <- call_loop host ev ast env val pre ;;
   call_loop host ev ast env v post) st.
Proof.
  revert val st. induction pre as [|n pre IH]; intros val st.
  - done.
  - cbn [app call_loop]. rewrite bind_assoc.
    destruct (call_step host ev ast env val n st) as [v s| |] eqn:Hstep.
    + rewrite !(bind_done _ _ _ _ _ Hstep). apply IH.
    + by rewrite !(bind_fail _ _ _ _ Hstep).
    + unfold bind. by rewrite Hstep.
Qed.

(** ** Interpolated strings *)

Lemma str_text host v s st :
  text v = Some s -> str host v st = Done s st.
Proof. destruct v; try done; by intros [= <-]. Qed.

Lemma string_app_assoc (a b c : string) : (a +:+ b) +:+ c = a +:+ (b +:+ c).
Proof.
  induction a as [|x a IH]; [done|].
  change (String x ((a +:+ b) +:+ c) = String x (a +:+ (b +:+ c))).
  by rewrite IH.
Qed.

Lemma string_app_empty_r (a : string) : a +:+ "" = a.
Proof.
  induction a as [|x a IH]; [done|].
  change (String x (a +:+ "") = String x a). by rewrite IH.
Qed.

Lemma interpolation_loop_texts host ev env ns st vs st1 ss acc :
  evals ev env ns st vs st1 ->
  Forall2 (fun v s => text v = Some s) vs ss ->
  interpolation_loop host ev ns env acc st =
  Done (acc +:+ foldr String.append "" ss) st1.
Proof.
  intros Hev. revert ss acc.
  induction Hev as [st|e es st v st1 vs st2 He Hes IH]; intros ss acc Htexts.
  - inversion Htexts. cbn. by rewrite string_app_empty_r.
  - inversion Htexts as [|? s ? ss' Hs Hss]; subst. cbn [interpolation_loop foldr].
    rewrite (bind_done _ _ _ _ _ He).
    rewrite (bind_done _ _ _ _ _ (str_text host _ _ st1 Hs)).
    rewrite (IH ss' _ Hss). by rewrite string_app_assoc.
Qed.

(** X21.  An interpolated string whose segments evaluate to numbers,
    booleans and strings is the concatenation of their texts in source
    order; the segments are evaluated from left to right, each in the
    store the one before left.  Without segments it is the empty
    string. *)
Theorem interpolated_string host fuel ast env st vs st1 ss :
  tag ast = INTERPOLATED_STRING ->
  evals (eval host fuel) env (nodes ast) st vs st1 ->
  Forall2 (fun v s => text v = Some s) vs ss ->
  eval host (S fuel) ast env st =
  Done (VString (foldr String.append "" ss)) st1.
Proof.
  intros Htag Hev Htexts.
  rewrite eval_unfold. unfold eval_node. rewrite Htag.
  unfold eval_interpolated_string.
  by rewrite (bind_done _ _ _ _ _
    (interpolation_loop_texts host _ _ _ _ _ _ _ "" Hev Htexts)).
Qed.

Lemma interpolated_string_witness :
  eval Sample.bare 3 Sample.interpolated Sample.root Sample.start
  = Done (VString "x=3") Sample.start.
Proof.
  apply (interpolated_string Sample.bare 2 Sample.interpolated Sample.root
    Sample.start [VString "x="; VLong 3] Sample.start ["x="; "3"]%string).
  - reflexivity.
  - eapply evals_cons; [reflexivity|].
    eapply evals_cons; [reflexivity|apply evals_nil].
  - repeat constructor.
Defined.

(** ** Comparisons *)



Lemma postfix_misfit_witness :
  call_step Sample.bare (eval Sample.bare 1) (Sample.call (Sample.num "1") [])
    Sample.root (VLong 1) (Sample.arguments [Sample.ident "nowhere"])
    Sample.start = Fail TypeMismatch.
Proof.
  apply (proj1 (postfix_misfit Sample.bare (eval Sample.bare 1)
    (Sample.call (Sample.num "1") []) Sample.root (VLong 1)
    (Sample.arguments [Sample.ident "nowhere"]) Sample.start));
    [reflexivity|discriminate].
Defined.

(** ** Arguments that fail *)

Lemma bind_params_fails ev params pre x post env E st vs st1 e :
  (length pre < length params)%nat ->
  evals ev env pre st vs st1 ->
  ev x env st1 = Fail e ->
  bind_params ev params (pre ++ x :: post) env E st = Fail e.
Proof.
  intros Hlen Hev Hx. revert params E Hlen.
  induction Hev as [st|a args st v st1 vs st2 Ha Hev IH]; intros params E Hlen.
  - destruct params as [|p ps]; [cbn in Hlen; lia|]. cbn.
    by rewrite (bind_fail _ _ _ _ Hx).
  - destruct params as [|p ps]; [cbn in Hlen; lia|]. cbn in Hlen. cbn.
    rewrite (bind_done _ _ _ _ _ Ha). apply IH; [done|lia].
Qed.

(** X25.  When an argument that stands for a parameter fails, the
    arguments before it having been evaluated, the call fails in the
    same way: the function is not invoked, whatever it is, and the
    arguments after the failing one are left alone. *)
Theorem call_argument_failure host ev ast env f n pre x post st vs st1 e :
  original_tag n = ARGUMENTS ->
  nodes n = pre ++ x :: post ->
  (length pre < length (fn_params f))%nat ->
  (length (fn_params f) <= length (nodes n))%nat ->
  evals ev env pre st vs st1 ->
  ev x env st1 = Fail e ->
  call_step host ev ast env (VFunction f) n st = Fail e.
Proof.
  intros Htag Hnodes Hpre Hlen Hev Hx.
  unfold call_step. rewrite Htag. unfold call_arguments. cbn [to_function].
  rewrite bind_ret.
  destruct (Nat.leb_spec (length (fn_params f)) (length (nodes n))); [|lia].
  unfold call_environment. rewrite !bind_assoc, Hnodes.
  by rewrite (bind_fail _ _ _ _
    (bind_params_fails _ _ _ _ post _ _ _ _ _ _ Hpre Hev Hx)).
Qed.

Lemma call_argument_failure_witness :
  call_step Sample.bare (eval Sample.bare 1) (Sample.call (Sample.ident "f") [])
    Sample.root (VFunction Sample.identity)
    (Sample.arguments [Sample.ident "nowhere"; Sample.num "1"]) Sample.start
  = Fail UnboundName.
Proof.
  apply (call_argument_failure Sample.bare (eval Sample.bare 1)
    (Sample.call (Sample.ident "f") []) Sample.root Sample.identity
    (Sample.arguments [Sample.ident "nowhere"; Sample.num "1"])
    [] (Sample.ident "nowhere") [Sample.num "1"] Sample.start []
    Sample.start UnboundName); try reflexivity.
  - cbn. lia.
  - cbn. lia.
  - apply evals_nil.
Defined.

(** ** A parameter called this *)

(** [o = { m: fn(mut this) { this } }; o.m(7)] gives the object, not 7:
    the function made by the DOT step initializes [this] after the
    parameters; called as it is, the same function gives 7. *)
Example run_this_parameter :
  Sample.value_of
    (eval Sample.bare 8
       (Sample.statements
          [Sample.assignment "" "o"
             (Sample.node OBJECT
                [Sample.property "m"
                   (Sample.function [Sample.parameter "mut" "this"]
                      (Sample.ident "this"))]);
           Sample.call (Sample.ident "o")
             [Sample.dot "m"; Sample.arguments [Sample.num "7"]]])
       Sample.root Sample.start)
  = Some (VObject 0) /\
  Sample.value_of
    (eval Sample.bare 8
       (Sample.call
          (Sample.function [Sample.parameter "mut" "this"] (Sample.ident "this"))
          [Sample.arguments [Sample.num "7"]])
       Sample.root Sample.start)
  = Some (VLong 7).
Proof. split; vm_compute; reflexivity. Qed.
